(** * Solar PV alarm: the ingestion-to-alert pipeline and the rule store

    A shallow embedding of [src/App.js]: [processData] (parse, classify,
    statistics, built-in alerts, custom rules) and the rule form operations
    [saveRule], [editRule], [deleteRule].

    JavaScript numbers are IEEE 754 binary64 values, modelled by Rocq's
    primitive [float]; millisecond time stamps and the ids built from them
    are integers far below 2^53, modelled by [Z]. *)

From Stdlib Require Import ZArith List String Ascii Bool Lia Floats Uint63.
From Stdlib Require Import DecimalString.
Import ListNotations.

Local Open Scope Z_scope.
Local Open Scope string_scope.

(** ** JavaScript values and the operators the source applies to them *)

Module JS.

(** A value held by a form field or read from a parsed row. *)
Inductive value :=
| VUndef
| VStr (s : string)
| VNum (x : float).

(** [isNaN(x)] on a number. *)
Definition isNaN (x : float) : bool := PrimFloat.is_nan x.

(** [a < b], [a > b], [a === b] on numbers (all false on NaN). *)
Definition lt (a b : float) : bool := PrimFloat.ltb a b.
Definition gt (a b : float) : bool := PrimFloat.ltb b a.
Definition seq (a b : float) : bool := PrimFloat.eqb a b.

(** ToBoolean: [undefined], the empty string, [0], [-0] and [NaN] are falsy. *)
Definition truthyStr (s : string) : bool :=
  match s with EmptyString => false | _ => true end.

Definition truthyNum (x : float) : bool :=
  negb (PrimFloat.is_zero x || isNaN x).

Definition truthy (v : value) : bool :=
  match v with
  | VUndef => false
  | VStr s => truthyStr s
  | VNum x => truthyNum x
  end.

(** [Math.abs], [Math.sqrt]; [Math.pow(x, 2)] is [x * x] (the engines'
    [pow] returns [x * x] for the exponent 2). *)
Definition Math_abs (x : float) : float := PrimFloat.abs x.
Definition Math_sqrt (x : float) : float := PrimFloat.sqrt x.
Definition Math_pow2 (x : float) : float := PrimFloat.mul x x.

(** An array length as a number (exact: lengths are below 2^32). *)
Definition ofLength (n : nat) : float :=
  PrimFloat.of_uint63 (Uint63.of_Z (Z.of_nat n)).

(** [parseFloat] applied to a number [x] parses [String(x)], which reads
    back as [x] itself; only the sign of zero is lost ([-0] prints "0"). *)
Definition parseFloatNum (x : float) : float :=
  if PrimFloat.is_zero x then PrimFloat.zero else x.

(** The functions of the host engine that the program calls on strings. *)
Record Host := {
  parseFloatStr : string -> float;       (* parseFloat(s)                 *)
  Date_parse : string -> option Z;       (* new Date(s); None: Invalid Date *)
  toFixed2 : float -> string;            (* x.toFixed(2)                  *)
  Number_toString : float -> string      (* String(x)                     *)
}.

Definition parseFloat (H : Host) (v : value) : float :=
  match v with
  | VUndef => PrimFloat.nan
  | VStr s => parseFloatStr H s
  | VNum x => parseFloatNum x
  end.

(** A row field is a string or [undefined]. *)
Definition ofField (f : option string) : value :=
  match f with Some s => VStr s | None => VUndef end.

(** A field inside a template literal. *)
Definition show (f : option string) : string :=
  match f with Some s => s | None => "undefined" end.

(** [a === b] on two fields: both [undefined], or the same string. *)
Definition fieldEq (a b : option string) : bool :=
  match a, b with
  | Some x, Some y => String.eqb x y
  | None, None => true
  | _, _ => false
  end.

(** [x || d] on numbers. *)
Definition orElse (x d : float) : float := if truthyNum x then x else d.

(** [Math.min(x, y)]: NaN when either is NaN, and [-0] below [+0]. *)
Definition Math_min (x y : float) : float :=
  if isNaN x || isNaN y then PrimFloat.nan
  else if PrimFloat.ltb x y then x
  else if PrimFloat.ltb y x then y
  else if PrimFloat.is_zero x then (if PrimFloat.get_sign x then x else y)
  else x.

End JS.

(** ** Effects: the clock, the id counter, sounds and dialogs *)

Inductive Sound := TheftSound | WarningSound.

(** [tempId] is the counter local to one [processData] call; [ticks] counts
    the readings of the clock so far; [sounds] and [dialogs] log what was
    played and shown, oldest first. *)
Record World := {
  tempId : Z;
  ticks : nat;
  sounds : list Sound;
  dialogs : list string
}.

Definition M (A : Type) : Type := World -> A * World.

Definition ret {A} (a : A) : M A := fun w => (a, w).

Definition bind {A B} (m : M A) (k : A -> M B) : M B :=
  fun w => let (a, w') := m w in k a w'.

Notation "x <- c1 ;; c2" := (bind c1 (fun x => c2))
  (at level 61, c1 at next level, right associativity).
Notation "c1 ;;; c2" := (bind c1 (fun _ => c2))
  (at level 61, right associativity).

Fixpoint mapM {A B} (f : A -> M B) (l : list A) : M (list B) :=
  match l with
  | [] => ret []
  | x :: xs => y <- f x ;; ys <- mapM f xs ;; ret (y :: ys)
  end.

Definition play (s : Sound) : M unit :=
  fun w => (tt, {| tempId := tempId w; ticks := ticks w;
                   sounds := (sounds w ++ [s])%list; dialogs := dialogs w |}).

Definition playTheftAlertSound : M unit := play TheftSound.
Definition playWarningAlertSound : M unit := play WarningSound.

(** [alert(msg)]. *)
Definition showDialog (msg : string) : M unit :=
  fun w => (tt, {| tempId := tempId w; ticks := ticks w;
                   sounds := sounds w; dialogs := (dialogs w ++ [msg])%list |}).

(** [let tempId = 0]. *)
Definition resetTempId : M unit :=
  fun w => (tt, {| tempId := 0; ticks := ticks w;
                   sounds := sounds w; dialogs := dialogs w |}).

(** [tempId++]: the value before the increment. *)
Definition postIncrTempId : M Z :=
  fun w => (tempId w, {| tempId := tempId w + 1; ticks := ticks w;
                         sounds := sounds w; dialogs := dialogs w |}).

(** ** Data model *)

Inductive Status := normal | low | offline.

Record Row := {
  row_id_panel : option string;
  row_power : option string;
  row_voltage : option string;
  row_timestamp : option string
}.

Record Panel := {
  p_id : Z;
  id_panel : option string;
  powerOut : float;
  voltage : float;
  panelStatus : Status;
  when : Z
}.

Record Alert := {
  a_id : Z;
  a_id_panel : option string;
  alertMessage : string;
  severityLevel : string;
  a_when : Z
}.

Record Rule := {
  r_id : Z;
  metric : string;
  condition : string;
  value : float;
  severity : string;
  message : string
}.

Record RuleForm := {
  f_metric : string;
  f_condition : string;
  f_value : JS.value;
  f_severity : string;
  f_message : string;
  editId : option Z
}.

(** The part of the component state the operations below read and write. *)
Record App := {
  panels : list Panel;
  alerts : list Alert;
  rules : list Rule;
  ruleForm : RuleForm;
  powerThreshold : float;
  voltageThreshold : float
}.

Definition blankForm : RuleForm :=
  {| f_metric := "power"; f_condition := "<"; f_value := JS.VStr "";
     f_severity := "warning"; f_message := ""; editId := None |}.

Definition setPanelsAlerts (st : App) (ps : list Panel) (al : list Alert) : App :=
  {| panels := ps; alerts := al; rules := rules st; ruleForm := ruleForm st;
     powerThreshold := powerThreshold st; voltageThreshold := voltageThreshold st |}.

Definition setRulesForm (st : App) (rs : list Rule) (f : RuleForm) : App :=
  {| panels := panels st; alerts := alerts st; rules := rs; ruleForm := f;
     powerThreshold := powerThreshold st; voltageThreshold := voltageThreshold st |}.

Definition setRules (st : App) (rs : list Rule) : App :=
  setRulesForm st rs (ruleForm st).

Definition setRuleForm (st : App) (f : RuleForm) : App :=
  setRulesForm st (rules st) f.

(** ** The program *)

Section Program.

Variable H : JS.Host.

(** The [n]-th reading of the clock returns [clock n] (milliseconds). *)
Variable clock : nat -> Z.

(** [Date.now()] and [new Date()]. *)
Definition Date_now : M Z :=
  fun w => (clock (ticks w),
            {| tempId := tempId w; ticks := S (ticks w);
               sounds := sounds w; dialogs := dialogs w |}).

(** [Date.now() + tempId++]. *)
Definition freshId : M Z :=
  t <- Date_now ;; c <- postIncrTempId ;; ret (t + c).

(** *** Parsing and classification (the first [filter] and [map]) *)

Definition rowComplete (row : Row) : bool :=
  JS.truthy (JS.ofField (row_id_panel row))
  && JS.truthy (JS.ofField (row_power row))
  && JS.truthy (JS.ofField (row_voltage row))
  && JS.truthy (JS.ofField (row_timestamp row)).

(** The status chosen by the [if]/[else if] on the parsed power. *)
Definition classify (powerThr power : float) : Status :=
  if JS.isNaN power || JS.seq power 0%float then offline
  else if JS.lt power powerThr then low
  else normal.

Definition classifyAndPlay (powerThr power : float) : M Status :=
  if JS.isNaN power || JS.seq power 0%float then
    playTheftAlertSound ;;; ret offline
  else if JS.lt power powerThr then
    playWarningAlertSound ;;; ret low
  else ret normal.

Definition parseTimestamp (f : option string) : option Z :=
  match f with
  | Some s => JS.Date_parse H s
  | None => None
  end.

Definition toPanel (powerThr : float) (row : Row) : M Panel :=
  let power := JS.parseFloat H (JS.ofField (row_power row)) in
  let volt := JS.parseFloat H (JS.ofField (row_voltage row)) in
  let timestamp := parseTimestamp (row_timestamp row) in
  status <- classifyAndPlay powerThr power ;;
  i <- freshId ;;
  t <- match timestamp with
       | None => Date_now
       | Some t => ret t
       end ;;
  ret {| p_id := i;
         id_panel := row_id_panel row;
         powerOut := if negb (JS.isNaN power) then power else 0%float;
         voltage := if negb (JS.isNaN volt) then volt else 0%float;
         panelStatus := status;
         when := t |}.

Definition parseRows (powerThr : float) (data : list Row) : M (list Panel) :=
  mapM (toPanel powerThr) (filter rowComplete data).

(** *** Statistics *)

Definition validPower (val : float) : bool :=
  negb (JS.isNaN val) && JS.gt val 0%float.

Definition powerOutputs (parsedData : list Panel) : list float :=
  filter validPower (map powerOut parsedData).

Definition sum (l : list float) : float :=
  fold_left PrimFloat.add l 0%float.

Definition sumSq (m : float) (l : list float) : float :=
  fold_left (fun s val => PrimFloat.add s (JS.Math_pow2 (PrimFloat.sub val m))) l 0%float.

Definition mean (l : list float) : float :=
  match l with
  | [] => 0%float
  | _ => PrimFloat.div (sum l) (JS.ofLength (List.length l))
  end.

Definition stdDev (l : list float) : float :=
  match l with
  | [] => 0%float
  | _ => JS.Math_sqrt (PrimFloat.div (sumSq (mean l) l) (JS.ofLength (List.length l)))
  end.

Definition meanPower (parsedData : list Panel) : float :=
  mean (powerOutputs parsedData).

Definition stdDevPower (parsedData : list Panel) : float :=
  stdDev (powerOutputs parsedData).

(** The condition guarding the anomaly alert. *)
Definition isAnomalous (meanP stdP : float) (p : Panel) : bool :=
  JS.gt meanP 0%float && JS.gt stdP 0%float
  && JS.gt (JS.Math_abs (PrimFloat.sub (powerOut p) meanP)) (PrimFloat.mul 2%float stdP).

(** *** Alerts *)

Definition offlineMessage (p : Panel) : string :=
  "Panel " ++ JS.show (id_panel p) ++ " is offline: Potential theft detected".

Definition lowPowerMessage (p : Panel) : string :=
  "Panel " ++ JS.show (id_panel p) ++ " has low power: "
    ++ JS.toFixed2 H (powerOut p) ++ "W".

Definition lowVoltageMessage (p : Panel) : string :=
  "Panel " ++ JS.show (id_panel p) ++ " has low voltage: "
    ++ JS.toFixed2 H (voltage p) ++ "V".

Definition anomalyMessage (p : Panel) : string :=
  "Anomaly in " ++ JS.show (id_panel p) ++ ": Power "
    ++ JS.toFixed2 H (powerOut p) ++ "W deviates significantly".

Definition ruleMessage (rule : Rule) : string :=
  if JS.truthyStr (message rule) then message rule
  else "Custom alert: " ++ metric rule ++ " " ++ condition rule ++ " "
         ++ JS.Number_toString H (value rule).

(** [alerts.push({_id: Date.now() + tempId++, ...})]. *)
Definition pushAlert (p : Panel) (msg sev : string) : M (list Alert) :=
  i <- freshId ;;
  ret [ {| a_id := i; a_id_panel := id_panel p; alertMessage := msg;
           severityLevel := sev; a_when := when p |} ].

Definition statusAlerts (p : Panel) : M (list Alert) :=
  match panelStatus p with
  | offline => pushAlert p (offlineMessage p) "critical"
  | low => pushAlert p (lowPowerMessage p) "warning"
  | normal => ret []
  end.

Definition voltageAlerts (voltThr : float) (p : Panel) : M (list Alert) :=
  if JS.lt (voltage p) voltThr then
    a <- pushAlert p (lowVoltageMessage p) "warning" ;;
    playWarningAlertSound ;;; ret a
  else ret [].

Definition anomalyAlerts (meanP stdP : float) (p : Panel) : M (list Alert) :=
  if isAnomalous meanP stdP p then
    a <- pushAlert p (anomalyMessage p) "warning" ;;
    playWarningAlertSound ;;; ret a
  else ret [].

(** The value a rule compares, and whether its condition is met. *)
Definition ruleValue (rule : Rule) (p : Panel) : float :=
  if String.eqb (metric rule) "power" then powerOut p else voltage p.

Definition conditionMet (rule : Rule) (p : Panel) : bool :=
  let v := ruleValue rule p in
  let thr := JS.parseFloat H (JS.VNum (value rule)) in
  if String.eqb (condition rule) "<" && JS.lt v thr then true
  else if String.eqb (condition rule) ">" && JS.gt v thr then true
  else if String.eqb (condition rule) "=" && JS.seq v thr then true
  else false.

Definition ruleAlert (p : Panel) (rule : Rule) : M (list Alert) :=
  if conditionMet rule p then
    a <- pushAlert p (ruleMessage rule) (severity rule) ;;
    (if String.eqb (severity rule) "critical"
     then playTheftAlertSound else playWarningAlertSound) ;;;
    ret a
  else ret [].

(** [rules.forEach(rule => ...)]. *)
Definition customAlerts (rs : list Rule) (p : Panel) : M (list Alert) :=
  ls <- mapM (ruleAlert p) rs ;; ret (List.concat ls).

Definition panelAlerts (voltThr meanP stdP : float) (rs : list Rule)
    (p : Panel) : M (list Alert) :=
  a <- statusAlerts p ;;
  b <- voltageAlerts voltThr p ;;
  c <- anomalyAlerts meanP stdP p ;;
  d <- customAlerts rs p ;;
  ret (a ++ b ++ c ++ d)%list.

Definition generateAlerts (voltThr : float) (rs : list Rule)
    (parsedData : list Panel) : M (list Alert) :=
  ls <- mapM (panelAlerts voltThr (meanPower parsedData)
                (stdDevPower parsedData) rs) parsedData ;;
  ret (List.concat ls).

Definition processData (st : App) (data : list Row) : M App :=
  resetTempId ;;;
  parsedData <- parseRows (powerThreshold st) data ;;
  newAlerts <- generateAlerts (voltageThreshold st) (rules st) parsedData ;;
  ret (setPanelsAlerts st parsedData newAlerts).

(** *** The rule form *)

Definition truthyId (i : option Z) : bool :=
  match i with
  | Some n => negb (Z.eqb n 0)
  | None => false
  end.

Definition invalidDraft (f : RuleForm) : bool :=
  negb (JS.truthy (f_value f))
  || JS.isNaN (JS.parseFloat H (f_value f))
  || negb (JS.truthyStr (f_message f)).

Definition validationMessage : string :=
  "Please enter a valid number for value and a message.".

Definition sameId (r : Rule) (i : option Z) : bool :=
  match i with
  | Some n => Z.eqb (r_id r) n
  | None => false
  end.

Definition saveRule (st : App) : M App :=
  let f := ruleForm st in
  if invalidDraft f then
    showDialog validationMessage ;;; ret st
  else
    i <- (if truthyId (editId f)
          then ret (match editId f with Some n => n | None => 0 end)
          else Date_now) ;;
    let newRule := {| r_id := i; metric := f_metric f;
                      condition := f_condition f;
                      value := JS.parseFloat H (f_value f);
                      severity := f_severity f; message := f_message f |} in
    let rs := if truthyId (editId f)
              then map (fun r => if sameId r (editId f) then newRule else r) (rules st)
              else (rules st ++ [newRule])%list in
    ret (setRulesForm st rs blankForm).

Definition editRule (st : App) (rule : Rule) : App :=
  setRuleForm st {| f_metric := metric rule; f_condition := condition rule;
                    f_value := JS.VNum (value rule);
                    f_severity := severity rule; f_message := message rule;
                    editId := Some (r_id rule) |}.

Definition deleteRule (st : App) (ruleId : Z) : App :=
  setRules st (filter (fun r => negb (Z.eqb (r_id r) ruleId)) (rules st)).

(** The "Add Rule" button. *)
Definition startCreate (st : App) : App := setRuleForm st blankForm.

End Program.

(** ** The rest of the component: alerts, figures, filters and inputs *)

(** The selections of the operator. *)
Record Selection := {
  selectedPanel : string;
  selectedSeverity : string;
  selectedAlert : option Alert
}.

Definition setAlerts (st : App) (al : list Alert) : App :=
  setPanelsAlerts st (panels st) al.

Definition dismissAlert (st : App) (sel : Selection) (alertId : Z)
    : App * Selection :=
  (setAlerts st (filter (fun a => negb (Z.eqb (a_id a) alertId)) (alerts st)),
   {| selectedPanel := selectedPanel sel;
      selectedSeverity := selectedSeverity sel;
      selectedAlert := None |}).

(** [p.panelStatus === s]. *)
Definition hasStatus (s : Status) (p : Panel) : bool :=
  match panelStatus p, s with
  | normal, normal | low, low | offline, offline => true
  | _, _ => false
  end.

(** The figures of the dashboard. *)
Definition totalPanels (st : App) : nat := List.length (panels st).

Definition activePanels (st : App) : nat :=
  List.length (filter (hasStatus normal) (panels st)).

Definition offlinePanels (st : App) : nat :=
  List.length (filter (hasStatus offline) (panels st)).

Definition avgPower (st : App) : float :=
  match panels st with
  | [] => 0%float
  | _ => PrimFloat.div
           (fold_left (fun sum p => PrimFloat.add sum (powerOut p)) (panels st)
              0%float)
           (JS.ofLength (List.length (panels st)))
  end.

(** [new Set(l)] spread into an array: the first occurrences, in order. *)
Fixpoint setOf (seen l : list (option string)) : list (option string) :=
  match l with
  | [] => []
  | x :: r =>
      if existsb (JS.fieldEq x) seen then setOf seen r
      else x :: setOf (x :: seen) r
  end.

Definition panelIds (st : App) : list (option string) :=
  Some "All"
    :: setOf [] (filter (fun f => JS.truthy (JS.ofField f))
                   (map id_panel (panels st))).

Definition filteredPanels (st : App) (sel : Selection) : list Panel :=
  if String.eqb (selectedPanel sel) "All" then panels st
  else filter (fun p => JS.fieldEq (id_panel p) (Some (selectedPanel sel)))
         (panels st).

Definition filteredAlerts (st : App) (sel : Selection) : list Alert :=
  if String.eqb (selectedSeverity sel) "All" then
    filter (fun a => String.eqb (selectedPanel sel) "All"
                     || JS.fieldEq (a_id_panel a) (Some (selectedPanel sel)))
      (alerts st)
  else
    filter (fun a => String.eqb (severityLevel a) (selectedSeverity sel)
                     && (String.eqb (selectedPanel sel) "All"
                         || JS.fieldEq (a_id_panel a) (Some (selectedPanel sel))))
      (alerts st).

(** The second data set of the chart: the power of a displayed reading when
    some alert has its panel id and its time of day, [null] otherwise.
    [timeOfDay] is the host's [toLocaleTimeString]. *)
Definition alertMarkers (timeOfDay : Z -> string) (st : App) (sel : Selection)
    : list (option float) :=
  map (fun p =>
         if existsb (fun a => JS.fieldEq (a_id_panel a) (id_panel p)
                              && String.eqb (timeOfDay (a_when a))
                                   (timeOfDay (when p)))
              (alerts st)
         then Some (powerOut p) else None)
      (filteredPanels st sel).

(** The width of the health bar, in percent. *)
Definition healthWidth (p : Panel) : float :=
  JS.Math_min (PrimFloat.mul (PrimFloat.div (powerOut p) 600%float) 100%float)
    100%float.

(** The two threshold inputs: [parseFloat(e.target.value) || 50] and
    [... || 200]. *)
Definition changePowerThreshold (H : JS.Host) (st : App) (text : string) : App :=
  {| panels := panels st; alerts := alerts st; rules := rules st;
     ruleForm := ruleForm st;
     powerThreshold := JS.orElse (JS.parseFloat H (JS.VStr text)) 50%float;
     voltageThreshold := voltageThreshold st |}.

Definition changeVoltageThreshold (H : JS.Host) (st : App) (text : string) : App :=
  {| panels := panels st; alerts := alerts st; rules := rules st;
     ruleForm := ruleForm st;
     powerThreshold := powerThreshold st;
     voltageThreshold := JS.orElse (JS.parseFloat H (JS.VStr text)) 200%float |}.

(** The inputs of the rule dialog, by their [name]. *)
Inductive FormField :=
  FieldMetric | FieldCondition | FieldValue | FieldSeverity | FieldMessage.

(** [setRuleForm({ ...ruleForm, [name]: value })]. *)
Definition handleRuleChange (st : App) (name : FormField) (text : string) : App :=
  let f := ruleForm st in
  setRuleForm st
    match name with
    | FieldMetric =>
        {| f_metric := text; f_condition := f_condition f; f_value := f_value f;
           f_severity := f_severity f; f_message := f_message f;
           editId := editId f |}
    | FieldCondition =>
        {| f_metric := f_metric f; f_condition := text; f_value := f_value f;
           f_severity := f_severity f; f_message := f_message f;
           editId := editId f |}
    | FieldValue =>
        {| f_metric := f_metric f; f_condition := f_condition f;
           f_value := JS.VStr text;
           f_severity := f_severity f; f_message := f_message f;
           editId := editId f |}
    | FieldSeverity =>
        {| f_metric := f_metric f; f_condition := f_condition f;
           f_value := f_value f;
           f_severity := text; f_message := f_message f; editId := editId f |}
    | FieldMessage =>
        {| f_metric := f_metric f; f_condition := f_condition f;
           f_value := f_value f;
           f_severity := f_severity f; f_message := text; editId := editId f |}
    end.

(** ** A concrete host

    An engine that implements the ECMAScript grammar on ASCII strings,
    running in the UTC time zone; of the date formats that the language
    leaves to the engine it reads one, the space between date and time.  The
    theorems below hold for every host; this one runs the program on
    concrete batches. *)

Module Engine.

Definition isDigit (c : ascii) : bool :=
  let n := nat_of_ascii c in (48 <=? n)%nat && (n <=? 57)%nat.

Definition digitVal (c : ascii) : Z := Z.of_nat (nat_of_ascii c) - 48.

Fixpoint spanDigits (l : list ascii) : list ascii * list ascii :=
  match l with
  | c :: r =>
      if isDigit c then let (d, r') := spanDigits r in (c :: d, r')
      else ([], l)
  | [] => ([], [])
  end.

Definition digitsValue (d : list ascii) : Z :=
  fold_left (fun acc c => 10 * acc + digitVal c) d 0.

(** TAB, LF, VT, FF, CR and SP. *)
Definition isSpace (c : ascii) : bool :=
  let n := nat_of_ascii c in
  ((9 <=? n)%nat && (n <=? 13)%nat) || (n =? 32)%nat.

Fixpoint trimStart (l : list ascii) : list ascii :=
  match l with
  | c :: r => if isSpace c then trimStart r else l
  | [] => []
  end.

Fixpoint startsWith (pre l : list ascii) : bool :=
  match pre, l with
  | [], _ => true
  | a :: pre', b :: l' => Ascii.eqb a b && startsWith pre' l'
  | _ :: _, [] => false
  end.

(** The binary64 value nearest to [m * 10^e10] (ties to even), signed. *)
Definition decToFloat (neg : bool) (m e10 : Z) : float :=
  match m with
  | Zpos p =>
      if Z.leb 0 e10 then
        SF2Prim (binary_round prec emax neg (p * Z.to_pos (10 ^ e10)) 0)
      else
        SF2Prim (SFdiv prec emax (S754_finite neg p 0)
                   (S754_finite false (Z.to_pos (10 ^ (- e10))) 0))
  | _ => if neg then neg_zero else zero
  end.

(** ExponentPart, when one is there: its value and what follows it. *)
Definition exponentPart (l : list ascii) : Z * list ascii :=
  match l with
  | c :: r =>
      if Ascii.eqb c "e"%char || Ascii.eqb c "E"%char then
        let '(neg, r1) :=
          match r with
          | "+"%char :: r' => (false, r')
          | "-"%char :: r' => (true, r')
          | _ => (false, r)
          end in
        let (d, r2) := spanDigits r1 in
        match d with
        | [] => (0, l)
        | _ => (if neg then - digitsValue d else digitsValue d, r2)
        end
      else (0, l)
  | [] => (0, l)
  end.

(** The longest prefix that is a StrUnsignedDecimalLiteral, as a number. *)
Definition unsignedLiteral (neg : bool) (l : list ascii) : float :=
  if startsWith (list_ascii_of_string "Infinity") l then
    if neg then neg_infinity else infinity
  else
    let (ip, r) := spanDigits l in
    match r with
    | "."%char :: r' =>
        let (fp, r'') := spanDigits r' in
        match ip, fp with
        | [], [] => nan
        | _, _ =>
            let (e, _) := exponentPart r'' in
            decToFloat neg (digitsValue (ip ++ fp)%list) (e - Z.of_nat (List.length fp))
        end
    | _ =>
        match ip with
        | [] => nan
        | _ => let (e, _) := exponentPart r in decToFloat neg (digitsValue ip) e
        end
    end.

Definition parseFloatStr (s : string) : float :=
  match trimStart (list_ascii_of_string s) with
  | "+"%char :: r => unsignedLiteral false r
  | "-"%char :: r => unsignedLiteral true r
  | l => unsignedLiteral false l
  end.

(** *** Printing numbers *)

(** A natural number in decimal. *)
Definition showZ (n : Z) : string := NilZero.string_of_uint (N.to_uint (Z.to_N n)).

(** The exact value of a finite [x] in absolute value, as a fraction. *)
Definition exactAbs (x : float) : Z * Z :=
  match Prim2SF x with
  | S754_finite _ m e =>
      if Z.leb 0 e then (Zpos m * 2 ^ e, 1) else (Zpos m, 2 ^ (- e))
  | _ => (0, 1)
  end.

(** [num / den < 10^n]. *)
Definition below10 (num den n : Z) : bool :=
  if Z.leb 0 n then Z.ltb num (den * 10 ^ n)
  else Z.ltb (num * 10 ^ (- n)) den.

Fixpoint findMag (fuel : nat) (num den n : Z) : Z :=
  match fuel with
  | O => n
  | S fuel' => if below10 num den n then n else findMag fuel' num den (n + 1)
  end.

(** The shortest decimal [s * 10^(n-k)] with [k] digits that reads back as
    [x], the closest to [x] when two do: [(s, n, k)]. *)
Fixpoint shortest (fuel : nat) (x : float) (num den n k : Z) : Z * Z * Z :=
  let P := num * 10 ^ Z.max 0 (k - n) in
  let Q := den * 10 ^ Z.max 0 (n - k) in
  let lo := P / Q in
  let hi := lo + 1 in
  let okLo := Z.leb (10 ^ (k - 1)) lo
              && PrimFloat.eqb (decToFloat false lo (n - k)) x in
  let okHi := PrimFloat.eqb (decToFloat false hi (n - k)) x in
  let up := if Z.eqb hi (10 ^ k) then (10 ^ (k - 1), n + 1, k) else (hi, n, k) in
  let dLo := P - lo * Q in
  let dHi := hi * Q - P in
  match fuel with
  | O => (lo, n, k)
  | S fuel' =>
      if okLo && okHi then
        if Z.ltb dLo dHi then (lo, n, k)
        else if Z.ltb dHi dLo then up
        else if Z.even lo then (lo, n, k) else up
      else if okLo then (lo, n, k)
      else if okHi then up
      else shortest fuel' x num den n (k + 1)
  end.

Fixpoint zeros (n : nat) : string :=
  match n with O => "" | S n' => String "0"%char (zeros n') end.

Definition showExponent (e : Z) : string :=
  if Z.ltb e 0 then "e-" ++ showZ (- e) else "e+" ++ showZ e.

Definition showPositive (x : float) : string :=
  let (num, den) := exactAbs x in
  let n0 := findMag 700 num den (-330) in
  let '(s, n, k) := shortest 17 x num den n0 1 in
  let d := showZ s in
  if Z.leb k n && Z.leb n 21 then d ++ zeros (Z.to_nat (n - k))
  else if Z.ltb 0 n && Z.leb n 21 then
    substring 0 (Z.to_nat n) d ++ "." ++ substring (Z.to_nat n) (Z.to_nat (k - n)) d
  else if Z.ltb (-6) n && Z.leb n 0 then "0." ++ zeros (Z.to_nat (- n)) ++ d
  else if Z.eqb k 1 then d ++ showExponent (n - 1)
  else substring 0 1 d ++ "." ++ substring 1 (Z.to_nat (k - 1)) d
         ++ showExponent (n - 1).

(** Number::toString with radix 10. *)
Definition Number_toString (x : float) : string :=
  if PrimFloat.is_nan x then "NaN"
  else if PrimFloat.is_zero x then "0"
  else if PrimFloat.is_infinity x then
    (if PrimFloat.ltb x 0 then "-Infinity" else "Infinity")
  else if PrimFloat.ltb x 0 then "-" ++ showPositive (PrimFloat.abs x)
  else showPositive x.

(** The integer nearest to [|x| * 100], the larger one on a tie. *)
Definition hundredths (x : float) : Z :=
  let (num, den) := exactAbs x in (200 * num + den) / (2 * den).

Definition twoDigits (n : Z) : string :=
  if Z.ltb n 10 then "0" ++ showZ n else showZ n.

(** Number.prototype.toFixed with 2 fraction digits. *)
Definition toFixed2 (x : float) : string :=
  if PrimFloat.is_nan x then "NaN"
  else if PrimFloat.leb 1e21 (PrimFloat.abs x) then Number_toString x
  else
    let n := hundredths x in
    (if PrimFloat.ltb x 0 then "-" else "")
      ++ showZ (n / 100) ++ "." ++ twoDigits (n mod 100).

(** *** Reading dates: the date-time string format of the language *)

Definition twoDigitNumber (a b : ascii) : option Z :=
  if isDigit a && isDigit b then Some (10 * digitVal a + digitVal b) else None.

Definition isLeap (y : Z) : bool :=
  (Z.eqb (y mod 4) 0 && negb (Z.eqb (y mod 100) 0)) || Z.eqb (y mod 400) 0.

Definition daysInMonth (y m : Z) : Z :=
  if Z.eqb m 2 then (if isLeap y then 29 else 28)
  else if Z.eqb m 4 || Z.eqb m 6 || Z.eqb m 9 || Z.eqb m 11 then 30
  else 31.

(** Days from 1970-01-01 to the given day of the Gregorian calendar. *)
Definition daysFromCivil (y m d : Z) : Z :=
  let y' := if Z.leb m 2 then y - 1 else y in
  let era := y' / 400 in
  let yoe := y' - era * 400 in
  let doy := (153 * ((m + 9) mod 12) + 2) / 5 + d - 1 in
  let doe := yoe * 365 + yoe / 4 - yoe / 100 + doy in
  era * 146097 + doe - 719468.

Definition digitsNumber (d : list ascii) : option Z :=
  if forallb isDigit d then Some (digitsValue d) else None.

(** [YYYY], or an expanded year [+YYYYYY] or [-YYYYYY] (not [-000000]). *)
Definition parseYear (l : list ascii) : option (Z * list ascii) :=
  match l with
  | "+"%char :: y1 :: y2 :: y3 :: y4 :: y5 :: y6 :: rest =>
      match digitsNumber [y1; y2; y3; y4; y5; y6] with
      | Some y => Some (y, rest)
      | None => None
      end
  | "-"%char :: y1 :: y2 :: y3 :: y4 :: y5 :: y6 :: rest =>
      match digitsNumber [y1; y2; y3; y4; y5; y6] with
      | Some y => if Z.eqb y 0 then None else Some (- y, rest)
      | None => None
      end
  | y1 :: y2 :: y3 :: y4 :: rest =>
      match digitsNumber [y1; y2; y3; y4] with
      | Some y => Some (y, rest)
      | None => None
      end
  | _ => None
  end.

(** [-MM] and [-MM-DD], when they are there: the month, the day, whether
    the day was given, and the rest. *)
Definition parseMonthDay (y : Z) (l : list ascii)
    : option (Z * Z * bool * list ascii) :=
  match l with
  | "-"%char :: m1 :: m2 :: rest =>
      match twoDigitNumber m1 m2 with
      | Some m =>
          if Z.leb 1 m && Z.leb m 12 then
            match rest with
            | "-"%char :: d1 :: d2 :: rest' =>
                match twoDigitNumber d1 d2 with
                | Some d =>
                    if Z.leb 1 d && Z.leb d (daysInMonth y m)
                    then Some (m, d, true, rest') else None
                | None => None
                end
            | _ => Some (m, 1, false, rest)
            end
          else None
      | None => None
      end
  | _ => Some (1, 1, false, l)
  end.

(** The days from 1970-01-01 to the day of a date form, whether the form has
    its day, and the rest. *)
Definition parseDay (l : list ascii) : option (Z * bool * list ascii) :=
  match parseYear l with
  | Some (y, rest) =>
      match parseMonthDay y rest with
      | Some (m, d, full, rest') => Some (daysFromCivil y m d, full, rest')
      | None => None
      end
  | None => None
  end.

(** The first three digits of a fraction of a second, as milliseconds. *)
Definition fractionMs (d : list ascii) : Z :=
  match d with
  | [] => 0
  | [a] => 100 * digitVal a
  | [a; b] => 100 * digitVal a + 10 * digitVal b
  | a :: b :: c :: _ => 100 * digitVal a + 10 * digitVal b + digitVal c
  end.

(** [:ss] and [.s...], when they are there: milliseconds and the rest. *)
Definition parseSeconds (l : list ascii) : option (Z * list ascii) :=
  match l with
  | ":"%char :: s1 :: s2 :: rest =>
      match twoDigitNumber s1 s2 with
      | Some sec =>
          if Z.leb sec 59 then
            match rest with
            | "."%char :: rest' =>
                match spanDigits rest' with
                | ([], _) => None
                | (d, rest'') => Some (sec * 1000 + fractionMs d, rest'')
                end
            | _ => Some (sec * 1000, rest)
            end
          else None
      | None => None
      end
  | _ => Some (0, l)
  end.

(** The offset from UTC in minutes: [Z], [+HH:mm], [-HH:mm] or none
    (local time, which is UTC for this host). *)
Definition parseOffset (l : list ascii) : option Z :=
  match l with
  | [] => Some 0
  | ["Z"%char] => Some 0
  | [sg; h1; h2; ":"%char; m1; m2] =>
      match twoDigitNumber h1 h2, twoDigitNumber m1 m2 with
      | Some h, Some m =>
          if Z.leb h 23 && Z.leb m 59 then
            if Ascii.eqb sg "+"%char then Some (60 * h + m)
            else if Ascii.eqb sg "-"%char then Some (- (60 * h + m))
            else None
          else None
      | _, _ => None
      end
  | _ => None
  end.

Definition parseTime (l : list ascii) : option Z :=
  match l with
  | h1 :: h2 :: ":"%char :: m1 :: m2 :: rest =>
      match twoDigitNumber h1 h2, twoDigitNumber m1 m2 with
      | Some h, Some m =>
          match parseSeconds rest with
          | Some (ms, rest') =>
              match parseOffset rest' with
              | Some off =>
                  if (Z.leb h 23 && Z.leb m 59)
                     || (Z.eqb h 24 && Z.eqb m 0 && Z.eqb ms 0)
                  then Some (h * 3600000 + m * 60000 + ms - off * 60000)
                  else None
              | None => None
              end
          | None => None
          end
      | _, _ => None
      end
  | _ => None
  end.

(** A time value is at most 8.64e15 ms away from 1970-01-01. *)
Definition inTimeRange (t : Z) : bool :=
  Z.leb (- 8640000000000000) t && Z.leb t 8640000000000000.

(** The date forms [YYYY], [YYYY-MM] and [YYYY-MM-DD] (UTC), with expanded
    years; a date form followed by [T] and [HH:mm], [HH:mm:ss] or
    [HH:mm:ss.sss] with an optional offset; and, as the engines read it,
    [YYYY-MM-DD] followed by a space in place of the [T].  Any other string
    is not a date here. *)
Definition Date_parse (s : string) : option Z :=
  match parseDay (list_ascii_of_string s) with
  | Some (days, full, rest) =>
      let time :=
        match rest with
        | [] => Some 0
        | "T"%char :: t => parseTime t
        | " "%char :: t => if full then parseTime t else None
        | _ => None
        end in
      match time with
      | Some ms =>
          if inTimeRange (days * 86400000 + ms)
          then Some (days * 86400000 + ms) else None
      | None => None
      end
  | None => None
  end.

Definition host : JS.Host :=
  {| JS.parseFloatStr := parseFloatStr;
     JS.Date_parse := Date_parse;
     JS.toFixed2 := toFixed2;
     JS.Number_toString := Number_toString |}.

End Engine.

Local Open Scope list_scope.

(** ** What the claims speak about *)

(** The fields of an alert other than its id. *)
Record AlertBody := {
  b_panel : option string;
  b_message : string;
  b_severity : string;
  b_when : Z
}.

Definition semantic (a : Alert) : AlertBody :=
  {| b_panel := a_id_panel a; b_message := alertMessage a;
     b_severity := severityLevel a; b_when := a_when a |}.

(** A field that is present and not empty. *)
Definition nonEmpty (f : option string) : Prop :=
  exists s, f = Some s /\ s <> "".

Section Expected.

Variable H : JS.Host.

Definition bodyFor (p : Panel) (msg sev : string) : AlertBody :=
  {| b_panel := id_panel p; b_message := msg; b_severity := sev;
     b_when := when p |}.

(** (a) offline, else (b) low power. *)
Definition statusPart (p : Panel) : list AlertBody :=
  match panelStatus p with
  | offline => [bodyFor p (offlineMessage p) "critical"]
  | low => [bodyFor p (lowPowerMessage H p) "warning"]
  | normal => []
  end.

(** (c) low voltage, whatever the status. *)
Definition voltagePart (voltThr : float) (p : Panel) : list AlertBody :=
  if JS.lt (voltage p) voltThr
  then [bodyFor p (lowVoltageMessage H p) "warning"] else [].

(** (d) statistical anomaly. *)
Definition anomalyPart (meanP stdP : float) (p : Panel) : list AlertBody :=
  if isAnomalous meanP stdP p
  then [bodyFor p (anomalyMessage H p) "warning"] else [].

(** (e) one alert for each rule that matches, in the order of the rules. *)
Definition rulePart (rs : list Rule) (p : Panel) : list AlertBody :=
  map (fun r => bodyFor p (ruleMessage H r) (severity r))
      (filter (fun r => conditionMet H r p) rs).

Definition expectedAlerts (voltThr meanP stdP : float) (rs : list Rule)
    (p : Panel) : list AlertBody :=
  (statusPart p ++ voltagePart voltThr p ++ anomalyPart meanP stdP p
     ++ rulePart rs p)%list.

(** What a complete row determines of its reading: everything but the id,
    and the time when the time stamp does not parse. *)
Definition readingOf (powerThr : float) (row : Row) (p : Panel) : Prop :=
  let power := JS.parseFloat H (JS.ofField (row_power row)) in
  let volt := JS.parseFloat H (JS.ofField (row_voltage row)) in
  id_panel p = row_id_panel row
  /\ powerOut p = (if JS.isNaN power then 0%float else power)
  /\ voltage p = (if JS.isNaN volt then 0%float else volt)
  /\ panelStatus p = classify powerThr power
  /\ (forall t, parseTimestamp H (row_timestamp row) = Some t -> when p = t).

End Expected.






(** The number from which the next id is built. *)
Definition nextId (clock : nat -> Z) (w : World) : Z :=
  clock (ticks w) + tempId w.

(** [l] is strictly increasing, starts at [lo] or above and ends below [hi]. *)
Fixpoint ascending (lo : Z) (l : list Z) (hi : Z) : Prop :=
  match l with
  | [] => lo <= hi
  | x :: r => lo <= x /\ ascending (x + 1) r hi
  end.

(** A computation that leaves the part [f] of the world as it was. *)
Definition keeps {X A} (f : World -> X) (m : M A) : Prop :=
  forall w, f (snd (m w)) = f w.

(** The ids of the alerts [m] returns lie between the next id before and
    the next id after, in increasing order. *)
Definition issues (clock : nat -> Z) (m : M (list Alert)) : Prop :=
  forall w, ascending (nextId clock w) (map a_id (fst (m w)))
              (nextId clock (snd (m w))).

(** *** Binary64 values as the specification of the floats describes them *)

(** What rounding returns for the sign [sx], a mantissa and an exponent. *)
Definition of_mantissa (sx : bool) (m e : Z) : spec_float :=
  match m with
  | Z0 => S754_zero sx
  | Zpos p => if Z.leb e (emax - prec) then S754_finite sx p e
              else S754_infinity sx
  | Zneg _ => S754_nan
  end.

(** Above zero: a positive finite number or plus infinity. *)
Definition posSF (x : spec_float) : Prop :=
  match x with
  | S754_finite false _ _ | S754_infinity false => True
  | _ => False
  end.

(** Positive numbers are split at the exponent [-1010]: the quotient of a
    number at or above it by an array length is not zero, and the square of
    a number below it is zero. *)
Definition splitExponent : Z := -1010.

Definition bigSF (x : spec_float) : Prop :=
  match x with
  | S754_infinity false => True
  | S754_finite false _ e => splitExponent <= e
  | _ => False
  end.

Definition smallSF (x : spec_float) : Prop :=
  match x with
  | S754_finite false _ e => e < splitExponent
  | _ => False
  end.

(** A number: anything but NaN. *)
Definition numberSF (x : spec_float) : Prop :=
  match x with S754_nan => False | _ => True end.

(** *** Counting sounds, alerts and rules *)

Definition isTheft (s : Sound) : bool :=
  match s with TheftSound => true | WarningSound => false end.

Definition thefts (l : list Sound) : nat := List.length (filter isTheft l).

Definition isCritical (a : Alert) : bool :=
  String.eqb (severityLevel a) "critical".

Definition criticalAlerts (l : list Alert) : nat :=
  List.length (filter isCritical l).

Definition criticalBody (b : AlertBody) : bool :=
  String.eqb (b_severity b) "critical".

Definition criticalRule (r : Rule) : bool :=
  String.eqb (severity r) "critical".

(** The sounds played and the alerts raised, among those a predicate
    counts. *)
Section Counted.

Variable countedSound : Sound -> bool.
Variable countedSeverity : string -> bool.

Definition soundCount (w : World) : nat :=
  List.length (filter countedSound (sounds w)).

Definition alertCount (l : list Alert) : nat :=
  List.length (filter (fun a => countedSeverity (severityLevel a)) l).

Definition weight (b : bool) : nat := if b then 1%nat else 0%nat.

(** What the first pass plays for a reading. *)
Definition parseSounds (p : Panel) : nat :=
  match panelStatus p with
  | offline => weight (countedSound TheftSound)
  | low => weight (countedSound WarningSound)
  | normal => 0%nat
  end.

End Counted.

(** A rule as the form saves it: a threshold that is a number, a message. *)
Definition wellFormed (r : Rule) : Prop :=
  JS.isNaN (value r) = false /\ JS.truthyStr (message r) = true.

(** ** Concrete batches and rule stores *)

Module Demo.

Definition world0 : World :=
  {| tempId := 0; ticks := 0; sounds := []; dialogs := [] |}.

(** A clock that stays within one millisecond, and one that advances by a
    millisecond at each reading. *)
Definition steadyClock : nat -> Z := fun _ => 1700000000000.

Definition app (rs : list Rule) (f : RuleForm) : App :=
  {| panels := []; alerts := []; rules := rs; ruleForm := f;
     powerThreshold := 50; voltageThreshold := 200 |}.

Definition row (panel power volt time : string) : Row :=
  {| row_id_panel := Some panel; row_power := Some power;
     row_voltage := Some volt; row_timestamp := Some time |}.

Definition reading (power volt : float) : Panel :=
  {| p_id := 1; id_panel := Some "PV001"; powerOut := power; voltage := volt;
     panelStatus := normal; when := 1704103200000 |}.

(** The three readings of one panel: dark, weak, and strong at low voltage. *)
Definition batch : list Row :=
  [ row "PV001" "0" "220" "2024-01-01T10:00:00Z";
    row "PV001" "30" "220" "2024-01-01T10:05:00Z";
    row "PV001" "500" "150" "2024-01-01T10:10:00Z" ].



(** A row whose power and voltage are not numbers, and a batch with it. *)
Definition garbledRow : Row := row "PV002" "n/a" "--" "2024-01-01T10:15:00Z".

Definition garbledBatch : list Row :=
  [ row "PV001" "480" "221" "2024-01-01T10:00:00Z"; garbledRow ].

(** Rows that lack a field: an empty power, and no time stamp at all. *)
Definition brokenBatch : list Row :=
  [ row "PV001" "" "220" "2024-01-01T10:00:00Z";
    {| row_id_panel := Some "PV002"; row_power := Some "300";
       row_voltage := Some "220"; row_timestamp := None |} ].

Definition powerBelow100 : Rule :=
  {| r_id := 1699999999000; metric := "power"; condition := "<";
     value := 100; severity := "critical"; message := "Power under 100 W" |}.

Definition voltageAbove0 : Rule :=
  {| r_id := 1699999999500; metric := "voltage"; condition := ">";
     value := 0; severity := "warning"; message := "Voltage present" |}.

(** A draft that edits a rule which is not in the store. *)
Definition strayDraft : RuleForm :=
  {| f_metric := "power"; f_condition := ">"; f_value := JS.VStr "250";
     f_severity := "warning"; f_message := "Power above 250 W";
     editId := Some 1699999999999 |}.

(** A draft whose threshold reads as an infinite number. *)
Definition infiniteDraft : RuleForm :=
  {| f_metric := "power"; f_condition := "<"; f_value := JS.VStr "Infinity";
     f_severity := "warning"; f_message := "Always"; editId := None |}.

Definition plainDraft : RuleForm :=
  {| f_metric := "voltage"; f_condition := "<"; f_value := JS.VStr "180.5";
     f_severity := "critical"; f_message := "Voltage sag"; editId := None |}.

End Demo.

(** ** Lemmas on the monad *)

Lemma bind_run {A B} (m : M A) (k : A -> M B) (w : World) :
  bind m k w = k (fst (m w)) (snd (m w)).
Proof. unfold bind. destruct (m w); reflexivity. Qed.

Lemma mapM_cons {A B} (f : A -> M B) (x : A) (l : list A) (w : World) :
  mapM f (x :: l) w =
  (fst (f x w) :: fst (mapM f l (snd (f x w))), snd (mapM f l (snd (f x w)))).
Proof. simpl. rewrite !bind_run. reflexivity. Qed.

Lemma mapM_Forall2 {A B} (f : A -> M B) (R : A -> B -> Prop) :
  (forall x w, R x (fst (f x w))) ->
  forall l w, Forall2 R l (fst (mapM f l w)).
Proof.
  intros Hf l. induction l as [|x l IH]; intros w.
  - constructor.
  - rewrite mapM_cons. simpl. constructor; [apply Hf | apply IH].
Qed.

Lemma mapM_preserves {A B} (f : A -> M B) (g : World -> Prop) :
  (forall x w, g w -> g (snd (f x w))) ->
  forall l w, g w -> g (snd (mapM f l w)).
Proof.
  intros Hf l. induction l as [|x l IH]; intros w Hw.
  - exact Hw.
  - rewrite mapM_cons. simpl. apply IH, Hf, Hw.
Qed.

Lemma mapM_concat_map {A B C} (f : A -> M (list B)) (g : B -> C)
    (h : A -> list C) :
  (forall x w, map g (fst (f x w)) = h x) ->
  forall l w, map g (List.concat (fst (mapM f l w))) = flat_map h l.
Proof.
  intros Hf l. induction l as [|x l IH]; intros w.
  - reflexivity.
  - rewrite mapM_cons. simpl. rewrite map_app, Hf, IH. reflexivity.
Qed.

Lemma flat_map_filter {A B} (c : A -> bool) (g : A -> B) (l : list A) :
  flat_map (fun x => if c x then [g x] else []) l = map g (filter c l).
Proof.
  induction l as [|x l IH]; simpl; [reflexivity|].
  destruct (c x); simpl; rewrite IH; reflexivity.
Qed.

(** ** Parsing and classification *)

Section ParseFacts.

Variable H : JS.Host.
Variable clock : nat -> Z.

Lemma classifyAndPlay_value (thr power : float) (w : World) :
  fst (classifyAndPlay thr power w) = classify thr power.
Proof.
  unfold classifyAndPlay, classify.
  destruct (JS.isNaN power || JS.seq power 0); [reflexivity|].
  destruct (JS.lt power thr); reflexivity.
Qed.

Lemma classifyAndPlay_dialogs (thr power : float) (w : World) :
  dialogs (snd (classifyAndPlay thr power w)) = dialogs w.
Proof.
  unfold classifyAndPlay.
  destruct (JS.isNaN power || JS.seq power 0); [reflexivity|].
  destruct (JS.lt power thr); reflexivity.
Qed.

Lemma toPanel_readingOf (thr : float) (row : Row) (w : World) :
  readingOf H thr row (fst (toPanel H clock thr row w)).
Proof.
  unfold toPanel, readingOf. rewrite !bind_run. simpl.
  rewrite classifyAndPlay_value.
  repeat split.
  - destruct (JS.isNaN (JS.parseFloat H (JS.ofField (row_power row)))); reflexivity.
  - destruct (JS.isNaN (JS.parseFloat H (JS.ofField (row_voltage row)))); reflexivity.
  - intros t Ht. rewrite Ht. reflexivity.
Qed.

Lemma toPanel_dialogs (thr : float) (row : Row) (w : World) :
  dialogs (snd (toPanel H clock thr row w)) = dialogs w.
Proof.
  unfold toPanel. rewrite !bind_run. simpl.
  destruct (parseTimestamp H (row_timestamp row)); simpl;
    apply classifyAndPlay_dialogs.
Qed.

Lemma parseRows_dialogs (thr : float) (data : list Row) (w : World) :
  dialogs (snd (parseRows H clock thr data w)) = dialogs w.
Proof.
  unfold parseRows.
  apply (mapM_preserves (toPanel H clock thr)
           (fun w' => dialogs w' = dialogs w)); [|reflexivity].
  intros x w' Hw'. rewrite toPanel_dialogs. exact Hw'.
Qed.

Lemma truthy_field (f : option string) :
  JS.truthy (JS.ofField f) = true <-> nonEmpty f.
Proof.
  unfold nonEmpty. destruct f as [s|]; simpl.
  - destruct s; simpl; split.
    + discriminate.
    + intros (s & Hs & Hne). inversion Hs. subst. congruence.
    + intros _. eexists. split; [reflexivity|discriminate].
    + reflexivity.
  - split; [discriminate|]. intros (s & Hs & _). discriminate.
Qed.

Lemma rowComplete_iff (row : Row) :
  rowComplete row = true <->
  nonEmpty (row_id_panel row) /\ nonEmpty (row_power row)
  /\ nonEmpty (row_voltage row) /\ nonEmpty (row_timestamp row).
Proof.
  unfold rowComplete. rewrite !andb_true_iff, !truthy_field. tauto.
Qed.

End ParseFacts.

(** The state and world after the first two steps of [processData]. *)
Lemma processData_run (H : JS.Host) (clock : nat -> Z) (st : App)
    (data : list Row) (w : World) :
  let w0 := snd (resetTempId w) in
  let r1 := parseRows H clock (powerThreshold st) data w0 in
  let r2 := generateAlerts H clock (voltageThreshold st) (rules st) (fst r1) (snd r1) in
  processData H clock st data w = (setPanelsAlerts st (fst r1) (fst r2), snd r2).
Proof.
  unfold processData. rewrite !bind_run. reflexivity.
Qed.

(** ** Computations that leave a part of the world alone *)

Lemma keeps_ret {X A} (f : World -> X) (a : A) : keeps f (ret a).
Proof. intros w. reflexivity. Qed.

Lemma keeps_bind {X A B} (f : World -> X) (m : M A) (k : A -> M B) :
  keeps f m -> (forall a, keeps f (k a)) -> keeps f (bind m k).
Proof.
  intros Hm Hk w. rewrite bind_run, Hk, Hm. reflexivity.
Qed.

Lemma keeps_mapM {X A B} (f : World -> X) (g : A -> M B) (l : list A) :
  (forall x, keeps f (g x)) -> keeps f (mapM g l).
Proof.
  intros Hg. induction l as [|x l IH]; simpl.
  - apply keeps_ret.
  - apply keeps_bind; [apply Hg|]. intros y.
    apply keeps_bind; [apply IH|]. intros ys. apply keeps_ret.
Qed.

Lemma keeps_if {X A} (f : World -> X) (b : bool) (m1 m2 : M A) :
  keeps f m1 -> keeps f m2 -> keeps f (if b then m1 else m2).
Proof. destruct b; auto. Qed.

Lemma play_keeps_dialogs (s : Sound) : keeps dialogs (play s).
Proof. intros w. reflexivity. Qed.

Lemma freshId_keeps_dialogs (clock : nat -> Z) : keeps dialogs (freshId clock).
Proof. intros w. reflexivity. Qed.

Create HintDb keeps.
#[local] Hint Resolve keeps_ret keeps_mapM keeps_if play_keeps_dialogs
  freshId_keeps_dialogs : keeps.
#[local] Hint Extern 2 (keeps _ (bind _ _)) =>
  (apply keeps_bind; [|intros]) : keeps.

Section AlertFacts.

Variable H : JS.Host.
Variable clock : nat -> Z.

Lemma generateAlerts_dialogs (voltThr : float) (rs : list Rule)
    (ps : list Panel) : keeps dialogs (generateAlerts H clock voltThr rs ps).
Proof.
  unfold generateAlerts, panelAlerts, statusAlerts, voltageAlerts,
    anomalyAlerts, customAlerts, ruleAlert, pushAlert,
    playTheftAlertSound, playWarningAlertSound.
  apply keeps_bind; [|intros; apply keeps_ret].
  apply keeps_mapM. intros p.
  apply keeps_bind; [destruct (panelStatus p); auto 10 with keeps|intros].
  apply keeps_bind; [auto 10 with keeps|intros].
  apply keeps_bind; [auto 10 with keeps|intros].
  apply keeps_bind; [|auto with keeps].
  apply keeps_bind; [|auto with keeps].
  apply keeps_mapM. intros r. auto 12 with keeps.
Qed.

(** *** The fields of the alerts *)

Lemma pushAlert_body (p : Panel) (msg sev : string) (w : World) :
  map semantic (fst (pushAlert clock p msg sev w)) = [bodyFor p msg sev].
Proof. unfold pushAlert. rewrite bind_run. reflexivity. Qed.

Lemma statusAlerts_body (p : Panel) (w : World) :
  map semantic (fst (statusAlerts H clock p w)) = statusPart H p.
Proof.
  unfold statusAlerts, statusPart.
  destruct (panelStatus p); [reflexivity| |]; apply pushAlert_body.
Qed.

Lemma voltageAlerts_body (voltThr : float) (p : Panel) (w : World) :
  map semantic (fst (voltageAlerts H clock voltThr p w)) = voltagePart H voltThr p.
Proof.
  unfold voltageAlerts, voltagePart.
  destruct (JS.lt (voltage p) voltThr); [|reflexivity].
  rewrite !bind_run. apply pushAlert_body.
Qed.

Lemma anomalyAlerts_body (meanP stdP : float) (p : Panel) (w : World) :
  map semantic (fst (anomalyAlerts H clock meanP stdP p w)) =
  anomalyPart H meanP stdP p.
Proof.
  unfold anomalyAlerts, anomalyPart.
  destruct (isAnomalous meanP stdP p); [|reflexivity].
  rewrite !bind_run. apply pushAlert_body.
Qed.

Lemma ruleAlert_body (p : Panel) (rule : Rule) (w : World) :
  map semantic (fst (ruleAlert H clock p rule w)) =
  if conditionMet H rule p
  then [bodyFor p (ruleMessage H rule) (severity rule)] else [].
Proof.
  unfold ruleAlert.
  destruct (conditionMet H rule p); [|reflexivity].
  rewrite !bind_run. apply pushAlert_body.
Qed.

Lemma customAlerts_body (rs : list Rule) (p : Panel) (w : World) :
  map semantic (fst (customAlerts H clock rs p w)) = rulePart H rs p.
Proof.
  unfold customAlerts, rulePart. rewrite bind_run. simpl.
  rewrite (mapM_concat_map (ruleAlert H clock p) semantic
             (fun r => if conditionMet H r p
                       then [bodyFor p (ruleMessage H r) (severity r)] else [])).
  - apply flat_map_filter.
  - intros r w'. apply ruleAlert_body.
Qed.

Lemma panelAlerts_body (voltThr meanP stdP : float) (rs : list Rule)
    (p : Panel) (w : World) :
  map semantic (fst (panelAlerts H clock voltThr meanP stdP rs p w)) =
  expectedAlerts H voltThr meanP stdP rs p.
Proof.
  unfold panelAlerts, expectedAlerts. rewrite !bind_run. simpl.
  rewrite !map_app, statusAlerts_body, voltageAlerts_body,
    anomalyAlerts_body, customAlerts_body.
  reflexivity.
Qed.

Lemma generateAlerts_body (voltThr : float) (rs : list Rule)
    (ps : list Panel) (w : World) :
  map semantic (fst (generateAlerts H clock voltThr rs ps w)) =
  flat_map (expectedAlerts H voltThr (meanPower ps) (stdDevPower ps) rs) ps.
Proof.
  unfold generateAlerts. rewrite bind_run. simpl.
  apply mapM_concat_map. intros p w'. apply panelAlerts_body.
Qed.

End AlertFacts.

(** ** Ids issued under a clock that never runs backwards *)

Lemma ascending_lower (a b : Z) (l : list Z) (c : Z) :
  a <= b -> ascending b l c -> ascending a l c.
Proof.
  destruct l; simpl; intros Hab Hl; [lia|]. split; [lia|tauto].
Qed.

Lemma ascending_app (a b c : Z) (l1 l2 : list Z) :
  ascending a l1 b -> ascending b l2 c -> ascending a (l1 ++ l2) c.
Proof.
  revert a. induction l1 as [|x l1 IH]; simpl; intros a H1 H2.
  - apply ascending_lower with b; assumption.
  - split; [lia|]. apply IH; tauto.
Qed.

Lemma ascending_bounds (a c : Z) (l : list Z) :
  ascending a l c -> a <= c /\ forall x, In x l -> a <= x.
Proof.
  revert a. induction l as [|y l IH]; simpl; intros a Hl.
  - split; [lia|contradiction].
  - destruct Hl as [Hay Hl]. destruct (IH _ Hl) as [Hc Hin].
    split; [lia|]. intros x [<-|Hx]; [lia|]. specialize (Hin x Hx). lia.
Qed.

Lemma ascending_NoDup (a c : Z) (l : list Z) : ascending a l c -> NoDup l.
Proof.
  revert a. induction l as [|y l IH]; simpl; intros a Hl.
  - constructor.
  - destruct Hl as [_ Hl]. constructor; [|eapply IH; eassumption].
    intros Hin. apply ascending_bounds in Hl. destruct Hl as [_ Hl].
    specialize (Hl y Hin). lia.
Qed.

Section Ids.

Variable H : JS.Host.
Variable clock : nat -> Z.
Hypothesis clock_mono : forall n, clock n <= clock (S n).

Lemma issues_nil : issues clock (ret []).
Proof. intros w. simpl. lia. Qed.

Lemma issues_pushAlert (p : Panel) (msg sev : string) :
  issues clock (pushAlert clock p msg sev).
Proof.
  intros w. unfold pushAlert. rewrite bind_run. unfold nextId. simpl.
  pose proof (clock_mono (ticks w)). lia.
Qed.

Lemma issues_then_play (m : M (list Alert)) (s : Sound) :
  issues clock m -> issues clock (a <- m ;; play s ;;; ret a).
Proof.
  intros Hm w. rewrite !bind_run. simpl. apply Hm.
Qed.

Lemma issues_mapM_concat {A} (f : A -> M (list Alert)) (l : list A) :
  (forall x, issues clock (f x)) -> issues clock (ls <- mapM f l ;; ret (List.concat ls)).
Proof.
  intros Hf w. rewrite bind_run. simpl. revert w.
  induction l as [|x l IH]; intros w.
  - simpl. lia.
  - rewrite mapM_cons. simpl. rewrite map_app.
    eapply ascending_app; [apply Hf | apply IH].
Qed.

Lemma issues_ruleAlert (p : Panel) (rule : Rule) :
  issues clock (ruleAlert H clock p rule).
Proof.
  unfold ruleAlert. destruct (conditionMet H rule p); [|apply issues_nil].
  destruct (String.eqb (severity rule) "critical");
    apply issues_then_play, issues_pushAlert.
Qed.

Lemma issues_panelAlerts (voltThr meanP stdP : float) (rs : list Rule)
    (p : Panel) : issues clock (panelAlerts H clock voltThr meanP stdP rs p).
Proof.
  assert (Hs : issues clock (statusAlerts H clock p)).
  { unfold statusAlerts.
    destruct (panelStatus p); auto using issues_nil, issues_pushAlert. }
  assert (Hv : issues clock (voltageAlerts H clock voltThr p)).
  { unfold voltageAlerts. destruct (JS.lt (voltage p) voltThr);
      [apply issues_then_play, issues_pushAlert | apply issues_nil]. }
  assert (Ha : issues clock (anomalyAlerts H clock meanP stdP p)).
  { unfold anomalyAlerts. destruct (isAnomalous meanP stdP p);
      [apply issues_then_play, issues_pushAlert | apply issues_nil]. }
  assert (Hc : issues clock (customAlerts H clock rs p)).
  { apply issues_mapM_concat. intros r. apply issues_ruleAlert. }
  intros w. unfold panelAlerts. rewrite !bind_run. simpl. rewrite !map_app.
  eapply ascending_app; [apply Hs|].
  eapply ascending_app; [apply Hv|].
  eapply ascending_app; [apply Ha|apply Hc].
Qed.

Lemma issues_generateAlerts (voltThr : float) (rs : list Rule)
    (ps : list Panel) : issues clock (generateAlerts H clock voltThr rs ps).
Proof.
  apply issues_mapM_concat. intros p. apply issues_panelAlerts.
Qed.

End Ids.

(** ** Readings that differ in their ids only *)





(** ** Readings that differ in their ids and times only *)




Lemma expectedAlerts_carry (H : JS.Host) (vt mu sd : float) (rs : list Rule)
    (p : Panel) (b : AlertBody) :
  In b (expectedAlerts H vt mu sd rs p) ->
  b_panel b = id_panel p /\ b_when b = when p.
Proof.
  unfold expectedAlerts, statusPart, voltagePart, anomalyPart, rulePart.
  rewrite !in_app_iff, in_map_iff.
  intros [Hb|[Hb|[Hb|(r & <- & _)]]]; [| | |split; reflexivity].
  - destruct (panelStatus p); simpl in Hb;
      [contradiction| |]; destruct Hb as [<-|[]]; split; reflexivity.
  - destruct (JS.lt (voltage p) vt); simpl in Hb;
      [destruct Hb as [<-|[]]; split; reflexivity|contradiction].
  - destruct (isAnomalous mu sd p); simpl in Hb;
      [destruct Hb as [<-|[]]; split; reflexivity|contradiction].
Qed.





(** ** Numbers: the sign of zero is not observed *)

Lemma is_zero_SF (x : float) :
  PrimFloat.is_zero x = true -> exists s, Prim2SF x = S754_zero s.
Proof.
  unfold PrimFloat.is_zero. rewrite FloatAxioms.eqb_spec.
  change (Prim2SF zero) with (S754_zero false).
  destruct (Prim2SF x) as [s|s| |s m e]; try discriminate.
  - intros _. exists s. reflexivity.
  - destruct s; discriminate.
  - destruct s; discriminate.
Qed.

Lemma parseFloatNum_lt (a t : float) :
  JS.lt a (JS.parseFloatNum t) = JS.lt a t.
Proof.
  unfold JS.parseFloatNum, JS.lt.
  destruct (PrimFloat.is_zero t) eqn:E; [|reflexivity].
  destruct (is_zero_SF _ E) as [s Hs].
  rewrite !FloatAxioms.ltb_spec, Hs. change (Prim2SF zero) with (S754_zero false).
  destruct (Prim2SF a) as [sa|sa| |sa ma ea]; destruct s; reflexivity.
Qed.

Lemma parseFloatNum_gt (a t : float) :
  JS.gt a (JS.parseFloatNum t) = JS.gt a t.
Proof.
  unfold JS.parseFloatNum, JS.gt.
  destruct (PrimFloat.is_zero t) eqn:E; [|reflexivity].
  destruct (is_zero_SF _ E) as [s Hs].
  rewrite !FloatAxioms.ltb_spec, Hs. change (Prim2SF zero) with (S754_zero false).
  destruct (Prim2SF a) as [sa|sa| |sa ma ea]; destruct s; reflexivity.
Qed.

Lemma parseFloatNum_seq (a t : float) :
  JS.seq a (JS.parseFloatNum t) = JS.seq a t.
Proof.
  unfold JS.parseFloatNum, JS.seq.
  destruct (PrimFloat.is_zero t) eqn:E; [|reflexivity].
  destruct (is_zero_SF _ E) as [s Hs].
  rewrite !FloatAxioms.eqb_spec, Hs. change (Prim2SF zero) with (S754_zero false).
  destruct (Prim2SF a) as [sa|sa| |sa ma ea]; destruct s; reflexivity.
Qed.

Lemma parseFloatNum_nonzero (x : float) :
  PrimFloat.is_zero x = false -> JS.parseFloatNum x = x.
Proof. unfold JS.parseFloatNum. intros ->. reflexivity. Qed.

(** ** Rounding: what the statistics need of binary64 arithmetic *)

(** The guard of the anomaly alert also asks for a mean above zero.  A
    standard deviation above zero implies it: a sum of positive numbers is
    positive and its exponent is at least that of each summand; its quotient
    by an array length is zero only when all summands lie below 2^-957, and
    then every square [(val - 0)^2] rounds to zero, and so does the
    deviation.  The lemmas follow [binary_round_aux] through the number of
    binary digits of the mantissa. *)

Section Rounding.

Local Close Scope string_scope.

(** *** Binary digits *)

Lemma Zdigits2_nonneg z : 0 <= Zdigits2 z.
Proof. destruct z; simpl; lia. Qed.

Lemma Zdigits2_pos_bounds p :
  2 ^ (Zpos (digits2_pos p) - 1) <= Zpos p < 2 ^ Zpos (digits2_pos p).
Proof.
  induction p as [p IH|p IH|]; simpl digits2_pos.
  - rewrite Pos2Z.inj_succ.
    replace (Z.succ (Zpos (digits2_pos p)) - 1) with (Zpos (digits2_pos p) - 1 + 1) by lia.
    rewrite Z.pow_succ_r by lia. rewrite Z.pow_add_r by lia.
    change (2 ^ 1) with 2. lia.
  - rewrite Pos2Z.inj_succ.
    replace (Z.succ (Zpos (digits2_pos p)) - 1) with (Zpos (digits2_pos p) - 1 + 1) by lia.
    rewrite Z.pow_succ_r by lia. rewrite Z.pow_add_r by lia.
    change (2 ^ 1) with 2. lia.
  - simpl. lia.
Qed.

Lemma Zdigits2_bounds z : 0 < z ->
  2 ^ (Zdigits2 z - 1) <= z < 2 ^ Zdigits2 z.
Proof. destruct z; try lia. intros _. apply Zdigits2_pos_bounds. Qed.

Lemma Zdigits2_lower z k : 0 <= k -> 2 ^ k <= z -> k + 1 <= Zdigits2 z.
Proof.
  intros Hk Hz. assert (0 < z) by (pose proof (Z.pow_pos_nonneg 2 k); lia).
  destruct (Zdigits2_bounds z H) as [_ Hu].
  assert (2 ^ k < 2 ^ Zdigits2 z) by lia.
  apply Z.pow_lt_mono_r_iff in H0; try lia. apply Zdigits2_nonneg.
Qed.

Lemma Zdigits2_upper z k : 0 <= z -> 0 <= k -> z < 2 ^ k -> Zdigits2 z <= k.
Proof.
  intros Hz Hk Hu. destruct (Z.eq_dec z 0) as [->|Hne]; [simpl; lia|].
  destruct (Zdigits2_bounds z ltac:(lia)) as [Hl _].
  assert (2 ^ (Zdigits2 z - 1) < 2 ^ k) by lia.
  apply Z.pow_lt_mono_r_iff in H; lia.
Qed.

Lemma Zdigits2_mono a b : 0 <= a <= b -> Zdigits2 a <= Zdigits2 b.
Proof.
  intros [Ha Hab]. destruct (Z.eq_dec a 0) as [->|Hne]; [apply Zdigits2_nonneg|].
  destruct (Zdigits2_bounds a ltac:(lia)) as [Hl _].
  pose proof (Zdigits2_lower b (Zdigits2 a - 1)).
  pose proof (Zdigits2_nonneg a).
  assert (1 <= Zdigits2 a) by (destruct a; simpl in *; lia).
  lia.
Qed.

Lemma Zdigits2_zero z : Zdigits2 z = 0 -> z = 0.
Proof. destruct z; simpl; lia. Qed.

Lemma Zdigits2_succ z : 0 <= z -> Zdigits2 (z + 1) <= Zdigits2 z + 1.
Proof.
  intros Hz. destruct (Z.eq_dec z 0) as [->|Hne]; [simpl; lia|].
  destruct (Zdigits2_bounds z ltac:(lia)) as [_ Hu].
  apply Zdigits2_upper; try lia. pose proof (Zdigits2_nonneg z). lia.
  rewrite Z.pow_add_r by (try lia; apply Zdigits2_nonneg). change (2^1) with 2. lia.
Qed.

Lemma Zdigits2_shift z k : 0 < z -> 0 <= k -> Zdigits2 (z * 2 ^ k) = Zdigits2 z + k.
Proof.
  intros Hz Hk. destruct (Zdigits2_bounds z Hz) as [Hl Hu].
  pose proof (Zdigits2_nonneg z).
  assert (1 <= Zdigits2 z) by (destruct z; simpl in *; lia).
  assert (Hp : 0 < 2 ^ k) by (apply Z.pow_pos_nonneg; lia).
  apply Z.le_antisymm.
  - apply Zdigits2_upper; try lia. rewrite Z.pow_add_r by lia. nia.
  - replace (Zdigits2 z + k) with ((Zdigits2 z - 1 + k) + 1) by lia.
    apply Zdigits2_lower; try lia. rewrite Z.pow_add_r by lia. nia.
Qed.

Lemma Zdigits2_mul a b : 0 < a -> 0 < b -> Zdigits2 (a * b) <= Zdigits2 a + Zdigits2 b.
Proof.
  intros Ha Hb. destruct (Zdigits2_bounds a Ha) as [_ Hua].
  destruct (Zdigits2_bounds b Hb) as [_ Hub].
  pose proof (Zdigits2_nonneg a). pose proof (Zdigits2_nonneg b).
  apply Zdigits2_upper; try nia. rewrite Z.pow_add_r by lia. nia.
Qed.

(** *** Shifting a mantissa to the right *)

Lemma iter_pos_comm {A} (f : A -> A) p x : iter_pos f p (f x) = f (iter_pos f p x).
Proof.
  revert x. induction p as [p IH|p IH|]; intros x; simpl.
  - rewrite !IH. reflexivity.
  - rewrite !IH. reflexivity.
  - reflexivity.
Qed.

Lemma iter_pos_succ {A} (f : A -> A) p x :
  iter_pos f (Pos.succ p) x = f (iter_pos f p x).
Proof.
  revert x. induction p as [p IH|p IH|]; intros x; simpl.
  - rewrite !IH, !iter_pos_comm. reflexivity.
  - rewrite !iter_pos_comm. reflexivity.
  - reflexivity.
Qed.

Lemma shr_1_digits s : Zdigits2 (shr_m (shr_1 s)) = Z.max 0 (Zdigits2 (shr_m s) - 1).
Proof.
  destruct s as [m r t]. destruct m as [|p|p]; [reflexivity| |];
    destruct p; cbn [shr_1 shr_m Zdigits2 digits2_pos];
    rewrite ?Pos2Z.inj_succ; lia.
Qed.

Lemma shr_1_nonneg s : 0 <= shr_m s -> 0 <= shr_m (shr_1 s).
Proof.
  destruct s as [m r t]. destruct m as [|p|p]; simpl; try lia;
    destruct p; simpl; lia.
Qed.

Lemma shr_1_r s : shr_m s = 0 -> shr_r (shr_1 s) = false.
Proof. destruct s as [m r t]. simpl. intros ->. reflexivity. Qed.

Lemma shr_iter_digits p s :
  Zdigits2 (shr_m (iter_pos shr_1 p s)) = Z.max 0 (Zdigits2 (shr_m s) - Zpos p).
Proof.
  induction p as [|p IH] using Pos.peano_ind.
  - apply shr_1_digits.
  - rewrite iter_pos_succ, shr_1_digits, IH. lia.
Qed.

Lemma shr_iter_nonneg p s : 0 <= shr_m s -> 0 <= shr_m (iter_pos shr_1 p s).
Proof.
  intros Hs. induction p as [|p IH] using Pos.peano_ind.
  - apply shr_1_nonneg, Hs.
  - rewrite iter_pos_succ. apply shr_1_nonneg, IH.
Qed.

Lemma shr_iter_r p s :
  Zdigits2 (shr_m s) < Zpos p -> shr_r (iter_pos shr_1 p s) = false.
Proof.
  destruct p as [|p] using Pos.peano_ind; intros Hd.
  - apply shr_1_r, Zdigits2_zero. pose proof (Zdigits2_nonneg (shr_m s)). lia.
  - rewrite iter_pos_succ. apply shr_1_r, Zdigits2_zero.
    rewrite shr_iter_digits. lia.
Qed.

Lemma shr_record_m m l : shr_m (shr_record_of_loc m l) = m.
Proof. destruct l as [|[]]; reflexivity. Qed.

Lemma shr_fexp_exp m e l :
  snd (shr_fexp prec emax m e l) = Z.max e (fexp prec emax (Zdigits2 m + e)).
Proof.
  unfold shr_fexp, shr.
  destruct (fexp prec emax (Zdigits2 m + e) - e) eqn:E; simpl; lia.
Qed.

Lemma shr_fexp_digits m e l :
  Zdigits2 (shr_m (fst (shr_fexp prec emax m e l))) =
  Z.max 0 (Zdigits2 m - Z.max 0 (fexp prec emax (Zdigits2 m + e) - e)).
Proof.
  unfold shr_fexp, shr. pose proof (Zdigits2_nonneg m).
  destruct (fexp prec emax (Zdigits2 m + e) - e) eqn:E; simpl fst.
  - rewrite shr_record_m. lia.
  - rewrite shr_iter_digits, shr_record_m. lia.
  - rewrite shr_record_m. lia.
Qed.

Lemma shr_fexp_nonneg m e l :
  0 <= m -> 0 <= shr_m (fst (shr_fexp prec emax m e l)).
Proof.
  intros Hm. unfold shr_fexp, shr.
  destruct (fexp prec emax (Zdigits2 m + e) - e) eqn:E; simpl fst;
    [|apply shr_iter_nonneg|]; rewrite shr_record_m; exact Hm.
Qed.

Lemma shr_fexp_id m e :
  fexp prec emax (Zdigits2 m + e) - e <= 0 ->
  shr_m (fst (shr_fexp prec emax m e loc_Exact)) = m.
Proof.
  intros Hn. unfold shr_fexp, shr.
  destruct (fexp prec emax (Zdigits2 m + e) - e) eqn:E; simpl; try reflexivity. lia.
Qed.

Lemma shr_fexp_loc m e :
  Zdigits2 m < fexp prec emax (Zdigits2 m + e) - e ->
  shr_r (fst (shr_fexp prec emax m e loc_Exact)) = false.
Proof.
  intros Hn. unfold shr_fexp, shr. pose proof (Zdigits2_nonneg m).
  destruct (fexp prec emax (Zdigits2 m + e) - e) eqn:E; try lia.
  simpl fst. apply shr_iter_r. simpl. lia.
Qed.

(** *** Rounding to nearest *)

Lemma rne_bounds m l : 0 <= m -> m <= round_nearest_even m l <= m + 1.
Proof.
  intros Hm. destruct l as [|[]]; simpl; try lia. destruct (Z.even m); lia.
Qed.

Lemma bra_shape sx mx ex lx :
  0 <= mx ->
  exists m2 e2,
    binary_round_aux prec emax sx mx ex lx = of_mantissa sx m2 e2
    /\ 0 <= m2
    /\ fexp prec emax (Zdigits2 mx + ex) <= e2
    /\ e2 <= Z.max ex (fexp prec emax (Zdigits2 mx + ex)) + 1
    /\ (0 < mx -> emin < Zdigits2 mx + ex -> 0 < m2)
    /\ (lx = loc_Exact -> 0 < mx -> Zdigits2 mx + ex < emin -> m2 = 0).
Proof.
  intros Hmx. unfold binary_round_aux.
  pose proof (shr_fexp_exp mx ex lx) as He1.
  pose proof (shr_fexp_digits mx ex lx) as Hd1.
  pose proof (shr_fexp_nonneg mx ex lx Hmx) as Hn1.
  destruct (shr_fexp prec emax mx ex lx) as [mrs1 e1] eqn:E1.
  simpl in He1, Hd1, Hn1.
  set (m1r := round_nearest_even (shr_m mrs1) (loc_of_shr_record mrs1)).
  assert (Hr : shr_m mrs1 <= m1r <= shr_m mrs1 + 1) by (apply rne_bounds, Hn1).
  pose proof (shr_fexp_exp m1r e1 loc_Exact) as He2.
  pose proof (shr_fexp_digits m1r e1 loc_Exact) as Hd2.
  pose proof (shr_fexp_nonneg m1r e1 loc_Exact ltac:(lia)) as Hn2.
  pose proof (shr_fexp_id m1r e1) as Hid2.
  destruct (shr_fexp prec emax m1r e1 loc_Exact) as [mrs2 e2] eqn:E2.
  simpl in He2, Hd2, Hn2, Hid2.
  exists (shr_m mrs2), e2.
  assert (Hloc : lx = loc_Exact ->
                 Zdigits2 mx < fexp prec emax (Zdigits2 mx + ex) - ex ->
                 shr_r mrs1 = false).
  { intros El Hn. subst lx. pose proof (shr_fexp_loc mx ex Hn) as Hl.
    rewrite E1 in Hl. exact Hl. }
  pose proof (Zdigits2_nonneg mx) as Hdx.
  pose proof (Zdigits2_nonneg (shr_m mrs1)) as Hdm1.
  pose proof (Zdigits2_nonneg m1r) as Hdr.
  pose proof (Zdigits2_mono (shr_m mrs1) m1r ltac:(lia)) as Hmono.
  pose proof (Zdigits2_succ (shr_m mrs1) Hn1) as Hsucc.
  pose proof (Zdigits2_mono m1r (shr_m mrs1 + 1) ltac:(lia)) as Hmono2.
  unfold fexp, SpecFloat.emin, emax, prec in *.
  split; [reflexivity|]. split; [exact Hn2|].
  split; [lia|]. split; [lia|]. split.
  - intros Hpos Hmag.
    assert (H1 : 1 <= Zdigits2 mx) by (destruct mx; simpl in *; lia).
    assert (H2 : 1 <= Zdigits2 (shr_m mrs2)) by lia.
    destruct (shr_m mrs2); simpl in *; lia.
  - intros El Hpos Hmag.
    assert (Hz1 : shr_m mrs1 = 0) by (apply Zdigits2_zero; lia).
    assert (Hm1r : m1r = 0).
    { unfold m1r. rewrite Hz1.
      assert (Hrr : shr_r mrs1 = false) by (apply Hloc; [exact El|lia]).
      destruct mrs1 as [mm rr ss]. cbn [shr_r] in Hrr. subst rr.
      destruct ss; reflexivity. }
    rewrite Hm1r in *. simpl in Hid2. apply Hid2. lia.
Qed.

(** *** Sums, quotients and squares of positive numbers *)

Lemma of_mantissa_pos m e : 0 < m -> posSF (of_mantissa false m e).
Proof.
  destruct m; try lia. intros _. simpl. destruct (_ <=? _); exact I.
Qed.

Lemma of_mantissa_big m e :
  0 < m -> splitExponent <= e -> bigSF (of_mantissa false m e).
Proof.
  destruct m; try lia. intros _ He. simpl.
  destruct (_ <=? _); simpl; [exact He|exact I].
Qed.

Lemma of_mantissa_nonneg m e :
  0 <= m -> of_mantissa false m e = S754_zero false \/ posSF (of_mantissa false m e).
Proof.
  intros Hm. destruct (Z.eq_dec m 0) as [->|Hne]; [left; reflexivity|].
  right. apply of_mantissa_pos. lia.
Qed.

Lemma valid_finite s m e :
  valid_binary (S754_finite s m e) = true ->
  fexp prec emax (Zpos (digits2_pos m) + e) = e.
Proof.
  simpl. unfold bounded, canonical_mantissa.
  rewrite andb_true_iff, Z.eqb_eq. tauto.
Qed.

Lemma iter_xO m d : Zpos (Pos.iter xO m d) = Zpos m * 2 ^ Zpos d.
Proof.
  induction d as [|d IH] using Pos.peano_ind.
  - simpl. lia.
  - rewrite Pos.iter_succ, Pos2Z.inj_xO, IH, Pos2Z.inj_succ, Z.pow_succ_r by lia.
    lia.
Qed.

Lemma shl_align_spec mx ex ex' :
  Zpos (fst (shl_align mx ex ex')) = Zpos mx * 2 ^ Z.max 0 (ex - ex')
  /\ snd (shl_align mx ex ex') = Z.min ex ex'.
Proof.
  unfold shl_align. destruct (ex' - ex) eqn:E; simpl fst; simpl snd.
  - replace (Z.max 0 (ex - ex')) with 0 by lia. simpl. lia.
  - replace (Z.max 0 (ex - ex')) with 0 by lia. simpl. lia.
  - rewrite iter_xO. replace (Z.max 0 (ex - ex')) with (Zpos p) by lia. lia.
Qed.

Lemma shl_align_digits mx ex ex' :
  Zdigits2 (Zpos (fst (shl_align mx ex ex'))) + snd (shl_align mx ex ex') =
  Zpos (digits2_pos mx) + ex.
Proof.
  destruct (shl_align_spec mx ex ex') as [-> ->].
  rewrite Zdigits2_shift by lia. cbn [Zdigits2]. lia.
Qed.

(** Rounding a positive integer mantissa. *)
Lemma binary_round_shape p e :
  exists m2 e2,
    binary_round prec emax false p e = of_mantissa false m2 e2
    /\ 0 <= m2
    /\ fexp prec emax (Zpos (digits2_pos p) + e) <= e2
    /\ e2 <= Z.max e (fexp prec emax (Zpos (digits2_pos p) + e)) + 1
    /\ (emin < Zpos (digits2_pos p) + e -> 0 < m2).
Proof.
  unfold binary_round.
  pose proof (shl_align_digits p e (fexp prec emax (Zpos (digits2_pos p) + e))) as Hd.
  destruct (shl_align_spec p e (fexp prec emax (Zpos (digits2_pos p) + e))) as [_ He].
  destruct (shl_align p e (fexp prec emax (Zpos (digits2_pos p) + e))) as [mz ez].
  cbn [fst snd] in Hd, He.
  destruct (bra_shape false (Zpos mz) ez loc_Exact ltac:(lia))
    as (m2 & e2 & Heq & Hm2 & Hlo & Hhi & Hpos & _).
  exists m2, e2. rewrite Hd in *.
  split; [exact Heq|]. split; [exact Hm2|]. split; [exact Hlo|].
  split; [lia|]. intros Hmag. apply Hpos; lia.
Qed.

Lemma add_finite_shape ma ea mb eb :
  valid_binary (S754_finite false ma ea) = true ->
  valid_binary (S754_finite false mb eb) = true ->
  exists m2 e2,
    SF64add (S754_finite false ma ea) (S754_finite false mb eb) =
      of_mantissa false m2 e2
    /\ 0 < m2 /\ ea <= e2 /\ eb <= e2.
Proof.
  intros Va Vb. apply valid_finite in Va, Vb.
  unfold SF64add, SFadd. cbn [cond_Zopp].
  destruct (shl_align_spec ma ea (Z.min ea eb)) as [Ha _].
  destruct (shl_align_spec mb eb (Z.min ea eb)) as [Hb _].
  set (pa := fst (shl_align ma ea (Z.min ea eb))) in *.
  set (pb := fst (shl_align mb eb (Z.min ea eb))) in *.
  change (Zpos pa + Zpos pb) with (Zpos (pa + pb)).
  cbn [binary_normalize].
  destruct (binary_round_shape (pa + pb) (Z.min ea eb))
    as (m2 & e2 & Heq & Hm2 & Hlo & _ & Hpos).
  exists m2, e2. split; [exact Heq|].
  assert (Da : Zpos (digits2_pos ma) + ea <=
               Zpos (digits2_pos (pa + pb)) + Z.min ea eb).
  { pose proof (Zdigits2_mono (Zpos pa) (Zpos (pa + pb)) ltac:(lia)) as Hm.
    rewrite Ha in Hm at 1. rewrite Zdigits2_shift in Hm by lia.
    cbn [Zdigits2] in Hm. lia. }
  assert (Db : Zpos (digits2_pos mb) + eb <=
               Zpos (digits2_pos (pa + pb)) + Z.min ea eb).
  { pose proof (Zdigits2_mono (Zpos pb) (Zpos (pa + pb)) ltac:(lia)) as Hm.
    rewrite Hb in Hm at 1. rewrite Zdigits2_shift in Hm by lia.
    cbn [Zdigits2] in Hm. lia. }
  unfold fexp, SpecFloat.emin, emax, prec in *.
  split; [apply Hpos; lia|]. lia.
Qed.

Lemma div_finite_shape ms es mn en :
  exists m2 e2,
    SF64div (S754_finite false ms es) (S754_finite false mn en) =
      of_mantissa false m2 e2
    /\ 0 <= m2
    /\ (emin < Zpos (digits2_pos ms) + es - (Zpos (digits2_pos mn) + en) -> 0 < m2).
Proof.
  unfold SF64div, SFdiv, SFdiv_core_binary. cbn [xorb Zdigits2].
  set (d1 := Zpos (digits2_pos ms)). set (d2 := Zpos (digits2_pos mn)).
  set (e' := Z.min (fexp prec emax (d1 + es - (d2 + en))) (es - en)).
  set (s := es - en - e').
  set (m' := match s with Zpos _ => Z.shiftl (Zpos ms) s | Z0 => Zpos ms | Zneg _ => 0 end).
  assert (Hs : 0 <= s) by (unfold s, e'; lia).
  assert (Hm' : m' = Zpos ms * 2 ^ s).
  { unfold m'. clearbody s. destruct s as [|p|p]; [rewrite Z.pow_0_r; lia| |lia].
    rewrite Z.shiftl_mul_pow2 by lia. reflexivity. }
  pose proof (Z_div_mod m' (Zpos mn) ltac:(lia)) as Hdm.
  destruct (Z.div_eucl m' (Zpos mn)) as [q r] eqn:Eqr.
  destruct Hdm as [Hdm Hr].
  assert (Hp2 : 0 < 2 ^ s) by (apply Z.pow_pos_nonneg; lia).
  assert (Hq : 0 <= q) by nia.
  destruct (bra_shape false q e' (new_location (Zpos mn) r) Hq)
    as (m2 & e2 & Heq & Hm2 & _ & _ & Hpos & _).
  exists m2, e2. split; [exact Heq|]. split; [exact Hm2|].
  intros Hmag.
  set (k := d1 + s - d2 - 1).
  assert (Hk : 0 <= k).
  { unfold k, s, e', fexp, SpecFloat.emin, emax, prec in *. lia. }
  destruct (Zdigits2_pos_bounds ms) as [Hl1 _].
  destruct (Zdigits2_pos_bounds mn) as [_ Hu2].
  fold d1 in Hl1. fold d2 in Hu2.
  assert (Hd1 : 1 <= d1) by (unfold d1; lia).
  assert (Hd2 : 1 <= d2) by (unfold d2; lia).
  assert (Hqk : 2 ^ k <= q).
  { assert (Hpk : 0 < 2 ^ k) by (apply Z.pow_pos_nonneg; lia).
    assert (Hprod : 2 ^ k * 2 ^ d2 = 2 ^ (d1 - 1) * 2 ^ s).
    { rewrite <- !Z.pow_add_r by lia. f_equal. unfold k. lia. }
    assert (Hlow : 2 ^ k * Zpos mn < m' + Zpos mn) by nia.
    nia. }
  pose proof (Zdigits2_lower q k Hk Hqk) as Hdq.
  assert (Hpk : 0 < 2 ^ k) by (apply Z.pow_pos_nonneg; lia).
  apply Hpos; [lia|].
  unfold k, s in Hdq. unfold SpecFloat.emin, emax, prec in *. lia.
Qed.

Lemma mul_small_zero m e :
  valid_binary (S754_finite false m e) = true ->
  e < splitExponent ->
  SF64mul (S754_finite false m e) (S754_finite false m e) = S754_zero false.
Proof.
  intros V He. apply valid_finite in V.
  unfold SF64mul, SFmul. cbn [xorb].
  destruct (bra_shape false (Zpos (m * m)) (e + e) loc_Exact ltac:(lia))
    as (m2 & e2 & Heq & _ & _ & _ & _ & Hz).
  rewrite Heq, Hz; [reflexivity|reflexivity|lia|].
  pose proof (Zdigits2_mul (Zpos m) (Zpos m) ltac:(lia) ltac:(lia)) as Hd.
  simpl Zdigits2 in Hd. change (Zdigits2 (Zpos (m * m))) with (Zpos (digits2_pos (m * m))).
  change (Zpos m * Zpos m) with (Zpos (m * m)) in Hd. simpl Zdigits2 in Hd.
  unfold splitExponent, fexp, SpecFloat.emin, emax, prec in *. lia.
Qed.

Lemma normalize_length_shape z :
  0 <= z < 2 ^ 63 ->
  binary_normalize prec emax z 0 false = S754_zero false
  \/ exists m e, binary_normalize prec emax z 0 false = S754_finite false m e
                 /\ e <= 11.
Proof.
  intros Hz. destruct z as [|p|p]; [left; reflexivity| |lia]. right.
  cbn [binary_normalize].
  destruct (binary_round_shape p 0) as (m2 & e2 & Heq & Hm2 & _ & Hhi & Hpos).
  pose proof (Zdigits2_upper (Zpos p) 63 ltac:(lia) ltac:(lia) ltac:(lia)) as Hd.
  simpl Zdigits2 in Hd.
  assert (He2 : e2 <= 11) by (unfold fexp, SpecFloat.emin, emax, prec in *; lia).
  assert (Hm2' : 0 < m2) by (apply Hpos; unfold SpecFloat.emin, emax, prec; lia).
  rewrite Heq. destruct m2 as [|m|m]; try lia. unfold of_mantissa.
  destruct (Z.leb_spec e2 (emax - prec)) as [_|Hgt];
    [eauto|unfold emax, prec in Hgt; lia].
Qed.

(** *** The mean and the standard deviation *)

Lemma ltb0_pos (x : float) :
  PrimFloat.ltb 0 x = true <-> posSF (Prim2SF x).
Proof.
  rewrite FloatAxioms.ltb_spec. change (Prim2SF 0) with (S754_zero false).
  destruct (Prim2SF x) as [s|s| |s m e]; try destruct s; simpl;
    intuition discriminate.
Qed.

Lemma validPower_pos (v : float) : validPower v = true -> posSF (Prim2SF v).
Proof.
  unfold validPower, JS.gt. rewrite andb_true_iff. intros [_ Hv].
  apply ltb0_pos, Hv.
Qed.

Lemma pos_big_or_small (x : float) :
  posSF (Prim2SF x) -> bigSF (Prim2SF x) \/ smallSF (Prim2SF x).
Proof.
  destruct (Prim2SF x) as [s|s| |s m e]; try destruct s; simpl; try tauto.
  intros _. lia.
Qed.

Lemma add_pos (a b : float) :
  posSF (Prim2SF a) -> posSF (Prim2SF b) ->
  posSF (Prim2SF (a + b))
  /\ (bigSF (Prim2SF a) \/ bigSF (Prim2SF b) -> bigSF (Prim2SF (a + b))).
Proof.
  rewrite FloatAxioms.add_spec.
  pose proof (Prim2SF_valid a) as Va. pose proof (Prim2SF_valid b) as Vb.
  destruct (Prim2SF a) as [sa|sa| |sa ma ea]; try destruct sa; try contradiction;
    destruct (Prim2SF b) as [sb|sb| |sb mb eb]; try destruct sb; try contradiction;
    intros _ _; try (simpl; tauto).
  destruct (add_finite_shape ma ea mb eb Va Vb) as (m2 & e2 & -> & Hm & Hea & Heb).
  split; [apply of_mantissa_pos, Hm|].
  simpl. intros [Hb|Hb]; apply of_mantissa_big; try exact Hm; lia.
Qed.

Lemma fold_add_pos (l : list float) (acc : float) :
  posSF (Prim2SF acc) -> Forall (fun v => posSF (Prim2SF v)) l ->
  posSF (Prim2SF (fold_left PrimFloat.add l acc))
  /\ (bigSF (Prim2SF acc) \/ Exists (fun v => bigSF (Prim2SF v)) l ->
      bigSF (Prim2SF (fold_left PrimFloat.add l acc))).
Proof.
  revert acc. induction l as [|v l IH]; intros acc Hacc Hl; simpl.
  - split; [exact Hacc|]. intros [Hb|Hb]; [exact Hb|inversion Hb].
  - inversion Hl as [|v' l' Hv Hl']; subst.
    destruct (add_pos acc v Hacc Hv) as [Hp Hb].
    destruct (IH (acc + v)%float Hp Hl') as [IH1 IH2].
    split; [exact IH1|]. intros [Hbig|Hex]; apply IH2.
    + left. apply Hb. left. exact Hbig.
    + inversion Hex; subst; [left; apply Hb; right; assumption|right; assumption].
Qed.

Lemma zero_add_pos (v : float) :
  posSF (Prim2SF v) -> Prim2SF (0 + v) = Prim2SF v.
Proof.
  rewrite FloatAxioms.add_spec. change (Prim2SF 0) with (S754_zero false).
  destruct (Prim2SF v) as [s|s| |s m e]; try destruct s; simpl;
    intros Hv; try contradiction; reflexivity.
Qed.

Lemma sum_pos (v : float) (l : list float) :
  Forall (fun x => posSF (Prim2SF x)) (v :: l) ->
  posSF (Prim2SF (sum (v :: l)))
  /\ (Exists (fun x => bigSF (Prim2SF x)) (v :: l) ->
      bigSF (Prim2SF (sum (v :: l)))).
Proof.
  intros Hl. inversion Hl as [|v' l' Hv Hl']; subst.
  unfold sum. simpl fold_left.
  assert (Hp : posSF (Prim2SF (0 + v))) by (rewrite zero_add_pos; assumption).
  destruct (fold_add_pos l (0 + v)%float Hp Hl') as [H1 H2].
  split; [exact H1|]. intros Hex. apply H2.
  inversion Hex; subst; [left; rewrite zero_add_pos; assumption|right; assumption].
Qed.

Lemma ofLength_shape (k : nat) :
  Prim2SF (JS.ofLength k) = S754_zero false
  \/ exists m e, Prim2SF (JS.ofLength k) = S754_finite false m e /\ e <= 11.
Proof.
  unfold JS.ofLength. rewrite of_uint63_spec.
  apply normalize_length_shape.
  pose proof (Uint63.to_Z_bounded (Uint63.of_Z (Z.of_nat k))) as Hb.
  change wB with (2 ^ 63) in Hb. exact Hb.
Qed.

Lemma div_length_shape (s : float) (k : nat) :
  posSF (Prim2SF s) ->
  (Prim2SF (s / JS.ofLength k) = S754_zero false
   \/ posSF (Prim2SF (s / JS.ofLength k)))
  /\ (bigSF (Prim2SF s) -> posSF (Prim2SF (s / JS.ofLength k))).
Proof.
  rewrite FloatAxioms.div_spec.
  pose proof (Prim2SF_valid (JS.ofLength k)) as Vn.
  destruct (ofLength_shape k) as [Hn|(mn & en & Hn & Hen)]; rewrite Hn in *;
    destruct (Prim2SF s) as [ss|ss| |ss ms es]; try destruct ss;
    try contradiction; intros _; try (simpl; tauto).
  destruct (div_finite_shape ms es mn en) as (m2 & e2 & -> & Hm2 & Hpos).
  split; [apply of_mantissa_nonneg, Hm2|].
  simpl. intros Hbig. apply of_mantissa_pos, Hpos.
  apply valid_finite in Vn.
  unfold splitExponent, fexp, SpecFloat.emin, emax, prec in *. lia.
Qed.

Lemma small_square (v mu : float) :
  Prim2SF mu = S754_zero false -> smallSF (Prim2SF v) ->
  Prim2SF (JS.Math_pow2 (v - mu)) = S754_zero false.
Proof.
  intros Hmu Hv. unfold JS.Math_pow2. rewrite FloatAxioms.mul_spec, FloatAxioms.sub_spec, Hmu.
  pose proof (Prim2SF_valid v) as Vv.
  destruct (Prim2SF v) as [s|s| |s m e]; try destruct s; try contradiction.
  simpl in Hv. cbn [SF64sub SFsub].
  apply mul_small_zero; assumption.
Qed.

Lemma sumSq_small (mu : float) (l : list float) (acc : float) :
  Prim2SF mu = S754_zero false -> Prim2SF acc = S754_zero false ->
  Forall (fun v => smallSF (Prim2SF v)) l ->
  Prim2SF (fold_left (fun s val => s + JS.Math_pow2 (val - mu))%float l acc) =
  S754_zero false.
Proof.
  intros Hmu. revert acc. induction l as [|v l IH]; intros acc Hacc Hl; simpl.
  - exact Hacc.
  - inversion Hl; subst. apply IH; [|assumption].
    rewrite FloatAxioms.add_spec, Hacc, small_square by assumption. reflexivity.
Qed.

(** A standard deviation above zero comes with a mean above zero. *)
Lemma stdDev_pos_mean_pos (l : list float) :
  Forall (fun v => validPower v = true) l ->
  PrimFloat.ltb 0 (stdDev l) = true -> PrimFloat.ltb 0 (mean l) = true.
Proof.
  intros Hl. destruct l as [|v l]; [intros Hs; exact Hs|].
  assert (Hpos : Forall (fun x => posSF (Prim2SF x)) (v :: l)).
  { eapply Forall_impl; [|exact Hl]. intros x. apply validPower_pos. }
  destruct (sum_pos v l Hpos) as [Hsum Hbig].
  destruct (div_length_shape (sum (v :: l)) (List.length (v :: l)) Hsum)
    as [Hcls Hdiv].
  unfold mean at 1. unfold stdDev. intros Hstd.
  destruct Hcls as [Hzero|Hp]; [|apply ltb0_pos, Hp].
  assert (Hsmall : Forall (fun x => smallSF (Prim2SF x)) (v :: l)).
  { apply Forall_forall. intros x Hx.
    assert (Hxp : posSF (Prim2SF x)).
    { rewrite Forall_forall in Hpos. apply Hpos, Hx. }
    destruct (pos_big_or_small x Hxp) as [Hb|Hsm]; [|exact Hsm].
    exfalso. assert (Hp : posSF (Prim2SF (sum (v :: l) / JS.ofLength (List.length (v :: l))))).
    { apply Hdiv, Hbig, Exists_exists. exists x. split; assumption. }
    rewrite Hzero in Hp. exact Hp. }
  exfalso. apply ltb0_pos in Hstd. revert Hstd.
  unfold JS.Math_sqrt. rewrite FloatAxioms.sqrt_spec, FloatAxioms.div_spec.
  unfold sumSq. rewrite (sumSq_small (mean (v :: l)) (v :: l) 0%float);
    [|exact Hzero|reflexivity|exact Hsmall].
  destruct (ofLength_shape (List.length (v :: l))) as [Hn|(mn & en & Hn & _)];
    rewrite Hn; simpl; tauto.
Qed.

End Rounding.

(** ** The rule form *)

Section RuleFormFacts.

Variable H : JS.Host.
Variable clock : nat -> Z.

Lemma saveRule_rejected (st : App) (w : World) :
  invalidDraft H (ruleForm st) = true ->
  saveRule H clock st w =
  (st, {| tempId := tempId w; ticks := ticks w; sounds := sounds w;
          dialogs := dialogs w ++ [validationMessage] |}).
Proof. unfold saveRule. intros ->. reflexivity. Qed.

Lemma saveRule_accepted (st : App) (w : World) :
  invalidDraft H (ruleForm st) = false ->
  ruleForm (fst (saveRule H clock st w)) = blankForm
  /\ dialogs (snd (saveRule H clock st w)) = dialogs w.
Proof.
  unfold saveRule. intros ->. rewrite bind_run. simpl.
  destruct (truthyId (editId (ruleForm st))); split; reflexivity.
Qed.

Lemma saveRule_update (st : App) (w : World) :
  invalidDraft H (ruleForm st) = false ->
  truthyId (editId (ruleForm st)) = true ->
  rules (fst (saveRule H clock st w)) =
  map (fun r =>
         if sameId r (editId (ruleForm st)) then
           {| r_id := match editId (ruleForm st) with Some n => n | None => 0 end;
              metric := f_metric (ruleForm st);
              condition := f_condition (ruleForm st);
              value := JS.parseFloat H (f_value (ruleForm st));
              severity := f_severity (ruleForm st);
              message := f_message (ruleForm st) |}
         else r) (rules st).
Proof.
  unfold saveRule. intros -> Hid. rewrite bind_run, Hid. reflexivity.
Qed.

Lemma saveRule_create (st : App) (w : World) :
  invalidDraft H (ruleForm st) = false ->
  truthyId (editId (ruleForm st)) = false ->
  rules (fst (saveRule H clock st w)) =
  rules st ++ [ {| r_id := clock (ticks w);
                   metric := f_metric (ruleForm st);
                   condition := f_condition (ruleForm st);
                   value := JS.parseFloat H (f_value (ruleForm st));
                   severity := f_severity (ruleForm st);
                   message := f_message (ruleForm st) |} ].
Proof.
  unfold saveRule. intros -> Hid. rewrite bind_run, Hid. reflexivity.
Qed.

Lemma map_replace_none (i : option Z) (r' : Rule) (rs : list Rule) :
  (forall r, In r rs -> sameId r i = false) ->
  map (fun r => if sameId r i then r' else r) rs = rs.
Proof.
  intros Hno. induction rs as [|r rs IH]; simpl; [reflexivity|].
  rewrite (Hno r (or_introl eq_refl)). f_equal.
  apply IH. intros r0 Hr0. apply Hno. right. exact Hr0.
Qed.

Lemma invalidDraft_iff (f : RuleForm) :
  (forall x, f_value f = JS.VNum x -> PrimFloat.is_zero x = false) ->
  invalidDraft H f = true <->
  f_value f = JS.VUndef \/ f_value f = JS.VStr ""
  \/ JS.isNaN (JS.parseFloat H (f_value f)) = true \/ f_message f = "".
Proof.
  intros Hnz. unfold invalidDraft.
  rewrite !orb_true_iff, !negb_true_iff.
  assert (Hmsg : JS.truthyStr (f_message f) = false <-> f_message f = "").
  { destruct (f_message f); simpl; split; congruence. }
  rewrite Hmsg.
  destruct (f_value f) as [|s|x] eqn:Ev; simpl.
  - intuition discriminate.
  - assert (Hs : JS.truthyStr s = false <-> JS.VStr s = JS.VStr "").
    { destruct s; simpl; split; congruence. }
    rewrite Hs. intuition discriminate.
  - rewrite (parseFloatNum_nonzero x (Hnz x eq_refl)).
    unfold JS.truthyNum. rewrite (Hnz x eq_refl). simpl.
    rewrite negb_false_iff. intuition discriminate.
Qed.

End RuleFormFacts.

(** ** The claims *)

(** The scenario of the design notes: three readings of PV001 under the
    default thresholds give one alert each, in the order of the readings. *)
Example scenario_alerts :
  map panelStatus (panels (fst (processData Engine.host Demo.steadyClock
     (Demo.app [] blankForm) Demo.batch Demo.world0))) = [offline; low; normal]
  /\ map semantic (alerts (fst (processData Engine.host Demo.steadyClock
       (Demo.app [] blankForm) Demo.batch Demo.world0))) =
     [ {| b_panel := Some "PV001";
          b_message := "Panel PV001 is offline: Potential theft detected";
          b_severity := "critical"; b_when := 1704103200000 |};
       {| b_panel := Some "PV001";
          b_message := "Panel PV001 has low power: 30.00W";
          b_severity := "warning"; b_when := 1704103500000 |};
       {| b_panel := Some "PV001";
          b_message := "Panel PV001 has low voltage: 150.00V";
          b_severity := "warning"; b_when := 1704103800000 |} ].
Proof. split; vm_compute; reflexivity. Qed.

(** C1: the readings follow the complete rows of the batch in their order,
    and the alerts follow the readings; for each reading they come as (a)
    the critical offline alert or else (b) the low-power warning, then (c)
    the low-voltage warning whenever the voltage is below its threshold,
    then (d) the anomaly warning, then (e) one alert for each matching rule
    in the order of the rule store; and each alert carries the panel id and
    the time of its reading. *)
Theorem alerts_in_order (H : JS.Host) (clock : nat -> Z) (st : App)
    (data : list Row) (w : World) :
  let st' := fst (processData H clock st data w) in
  let ps := panels st' in
  let vt := voltageThreshold st in
  let mu := meanPower ps in
  let sd := stdDevPower ps in
  Forall2 (readingOf H (powerThreshold st)) (filter rowComplete data) ps
  /\ map semantic (alerts st') =
       flat_map (fun p => statusPart H p ++ voltagePart H vt p
                            ++ anomalyPart H mu sd p ++ rulePart H (rules st) p) ps
  /\ (forall p,
        (panelStatus p = offline ->
           statusPart H p = [bodyFor p (offlineMessage p) "critical"])
        /\ (panelStatus p = low ->
              statusPart H p = [bodyFor p (lowPowerMessage H p) "warning"])
        /\ (panelStatus p = normal -> statusPart H p = [])
        /\ voltagePart H vt p =
             (if JS.lt (voltage p) vt
              then [bodyFor p (lowVoltageMessage H p) "warning"] else [])
        /\ anomalyPart H mu sd p =
             (if isAnomalous mu sd p
              then [bodyFor p (anomalyMessage H p) "warning"] else [])
        /\ rulePart H (rules st) p =
             map (fun r => bodyFor p (ruleMessage H r) (severity r))
                 (filter (fun r => conditionMet H r p) (rules st)))
  /\ (forall p b, In b (expectedAlerts H vt mu sd (rules st) p) ->
        b_panel b = id_panel p /\ b_when b = when p).
Proof.
  intros st' ps vt mu sd. split; [|split; [|split]].
  - subst st' ps. rewrite processData_run. simpl.
    unfold parseRows. apply mapM_Forall2. intros row w'.
    apply toPanel_readingOf.
  - subst st' ps vt mu sd. rewrite processData_run. simpl.
    apply generateAlerts_body.
  - intros p. unfold statusPart, voltagePart, anomalyPart, rulePart.
    repeat split; intros ->; reflexivity.
  - intros p b. unfold expectedAlerts, statusPart, voltagePart, anomalyPart,
      rulePart.
    rewrite !in_app_iff, in_map_iff.
    intros [Hb|[Hb|[Hb|(r & <- & _)]]]; [| | |split; reflexivity].
    + destruct (panelStatus p); simpl in Hb;
        [contradiction| |]; destruct Hb as [<-|[]]; split; reflexivity.
    + destruct (JS.lt (voltage p) vt); simpl in Hb;
        [destruct Hb as [<-|[]]; split; reflexivity|contradiction].
    + destruct (isAnomalous mu sd p); simpl in Hb;
        [destruct Hb as [<-|[]]; split; reflexivity|contradiction].
Qed.

(** C2: a reading is offline iff its parsed power is not a number or equals
    zero; otherwise it is low iff the power is below the threshold; otherwise
    it is normal.  With the threshold 50: 0 and NaN are offline, 49 is low,
    50 is normal.  This is the status every reading of a batch receives. *)
Theorem classification (thr power : float) :
  let dark := JS.isNaN power = true \/ JS.seq power 0%float = true in
  (classify thr power = offline <-> dark)
  /\ (classify thr power = low <-> ~ dark /\ JS.lt power thr = true)
  /\ (classify thr power = normal <-> ~ dark /\ JS.lt power thr = false)
  /\ classify 50%float 0%float = offline
  /\ classify 50%float PrimFloat.nan = offline
  /\ classify 50%float 49%float = low
  /\ classify 50%float 50%float = normal
  /\ (forall H clock row w,
        panelStatus (fst (toPanel H clock thr row w)) =
        classify thr (JS.parseFloat H (JS.ofField (row_power row)))).
Proof.
  intros dark. subst dark. unfold classify.
  rewrite <- orb_true_iff.
  destruct (JS.isNaN power || JS.seq power 0) eqn:E;
    destruct (JS.lt power thr) eqn:L;
    repeat split; try reflexivity; try discriminate; try tauto;
    try (intros [? ?]; congruence);
    try (intros; apply toPanel_readingOf).
Qed.

(** C3: the mean and the standard deviation of a batch are computed over
    exactly the parsed powers that are numbers above zero: the mean is their
    sum, added up from 0 in the order of the batch, divided by their number,
    and the standard deviation is the square root of the sum of their squared
    distances from that mean, divided by their number.  When there is no such
    power both are 0 and no reading of the batch is anomalous; and a reading,
    counted in that baseline or not, is anomalous (it gets the anomaly alert)
    iff the standard deviation is above zero and its power is more than two
    standard deviations away from the mean.  For the powers 0, 100, 100, 100
    and 1000 the baseline leaves out the 0: the mean is 325 and the standard
    deviation lies between 389.6875 and 389.75 (the square root of 151875);
    for four powers of 100 the mean is 100 and the standard deviation 0. *)
Theorem anomaly_statistics (ps : list Panel) (p : Panel) :
  let base := filter (fun v => negb (JS.isNaN v) && JS.gt v 0%float)
                (map powerOut ps) in
  let n := JS.ofLength (List.length base) in
  let mu := meanPower ps in
  let sd := stdDevPower ps in
  (forall v, In v base <->
     In v (map powerOut ps) /\ JS.isNaN v = false /\ JS.gt v 0%float = true)
  /\ (base <> [] ->
        mu = (fold_left PrimFloat.add base 0 / n)%float
        /\ sd = PrimFloat.sqrt
                  (fold_left (fun acc v => acc + (v - mu) * (v - mu)) base 0
                   / n)%float)
  /\ (base = [] ->
        mu = 0%float /\ sd = 0%float /\ forall q, isAnomalous mu sd q = false)
  /\ (isAnomalous mu sd p = true <->
        JS.gt sd 0%float = true
        /\ JS.gt (JS.Math_abs (powerOut p - mu)%float) (2 * sd)%float = true)
  /\ (forall H clock w,
        List.length (fst (anomalyAlerts H clock mu sd p w)) =
        if isAnomalous mu sd p then 1%nat else 0%nat)
  /\ (let qs := map (fun v => Demo.reading v 220) [0; 100; 100; 100; 1000]%float in
      meanPower qs = 325%float
      /\ PrimFloat.ltb 389.6875 (stdDevPower qs) = true
      /\ PrimFloat.ltb (stdDevPower qs) 389.75 = true)
  /\ (let qs := map (fun v => Demo.reading v 220) [100; 100; 100; 100]%float in
      meanPower qs = 100%float /\ stdDevPower qs = 0%float).
Proof.
  intros base n mu sd.
  assert (Eb : powerOutputs ps = base) by reflexivity.
  split; [|split; [|split; [|split; [|split; [|split]]]]];
    [| | | |intros H clock w; unfold anomalyAlerts;
            destruct (isAnomalous mu sd p); [rewrite !bind_run|]; reflexivity
     |repeat split; vm_compute; reflexivity
     |repeat split; vm_compute; reflexivity].
  - intros v. unfold base. rewrite filter_In, andb_true_iff, negb_true_iff.
    tauto.
  - intros Hne. unfold mu, sd, n, meanPower, stdDevPower. rewrite Eb.
    destruct base as [|v l]; [congruence|]. split; reflexivity.
  - intros He. unfold mu, sd, meanPower, stdDevPower. rewrite Eb, He.
    repeat split.
  - unfold isAnomalous. rewrite !andb_true_iff. split; [tauto|].
    intros [Hsd Habs]. repeat split; try assumption.
    unfold mu, meanPower, JS.gt. apply stdDev_pos_mean_pos; [|exact Hsd].
    apply Forall_forall. intros v Hv. apply filter_In in Hv. tauto.
Qed.

Example statistics_small_batches :
  mean [100; 100; 100; 100]%float = 100%float
  /\ stdDev [100; 100; 100; 100]%float = 0%float
  /\ isAnomalous 100 0 (Demo.reading 100 220) = false
  /\ mean [100; 100; 100; 1000]%float = 325%float
  /\ PrimFloat.ltb 389 (stdDev [100; 100; 100; 1000]%float) = true
  /\ isAnomalous (mean [100; 100; 100; 1000]%float)
       (stdDev [100; 100; 100; 1000]%float) (Demo.reading 1000 220) = false.
Proof. repeat split; vm_compute; reflexivity. Qed.

(** C4: a rule compares the reading's power when its metric is power and
    the voltage otherwise; it matches iff that value is below ("<"), above
    (">") or exactly equal to ("=") the rule's threshold; every matching rule
    gives one alert of its own, with the rule's severity, in the order of the
    rules and without merging.  The rule "power < 100" matches a power of 50
    and does not match 150. *)
Theorem rule_matching (H : JS.Host) (rule : Rule) (p : Panel) :
  let v := ruleValue rule p in
  let thr := value rule in
  (metric rule = "power" -> v = powerOut p)
  /\ (metric rule <> "power" -> v = voltage p)
  /\ (conditionMet H rule p = true <->
        (condition rule = "<" /\ JS.lt v thr = true)
        \/ (condition rule = ">" /\ JS.gt v thr = true)
        \/ (condition rule = "=" /\ JS.seq v thr = true))
  /\ (forall clock rs w,
        map semantic (fst (customAlerts H clock rs p w)) =
          map (fun r => bodyFor p (ruleMessage H r) (severity r))
              (filter (fun r => conditionMet H r p) rs)
        /\ List.length (fst (customAlerts H clock rs p w)) =
             List.length (filter (fun r => conditionMet H r p) rs))
  /\ conditionMet H Demo.powerBelow100 (Demo.reading 50 220) = true
  /\ conditionMet H Demo.powerBelow100 (Demo.reading 150 220) = false.
Proof.
  intros v thr. subst v thr. unfold ruleValue.
  split; [|split; [|split; [|split; [|split]]]].
  - intros ->. reflexivity.
  - intros Hm. apply String.eqb_neq in Hm. rewrite Hm. reflexivity.
  - unfold conditionMet, ruleValue. simpl JS.parseFloat.
    rewrite parseFloatNum_lt, parseFloatNum_gt, parseFloatNum_seq.
    set (v := if (metric rule =? "power")%string then powerOut p else voltage p).
    destruct (String.eqb_spec (condition rule) "<") as [E1|E1];
      destruct (String.eqb_spec (condition rule) ">") as [E2|E2];
      destruct (String.eqb_spec (condition rule) "=") as [E3|E3];
      try congruence;
      destruct (JS.lt v (value rule)); destruct (JS.gt v (value rule));
      destruct (JS.seq v (value rule)); simpl;
      intuition (try discriminate; try congruence).
  - intros clock rs w.
    pose proof (customAlerts_body H clock rs p w) as Hb.
    unfold rulePart in Hb. split; [exact Hb|].
    rewrite <- (length_map semantic), Hb, length_map. reflexivity.
  - vm_compute. reflexivity.
  - vm_compute. reflexivity.
Qed.

(** C5: a reading is produced for a row iff its four fields id_panel, power,
    voltage and timestamp are present and not empty; the other rows are
    dropped without any message; every complete row gives exactly one
    reading, and the readings keep the order of the rows. *)
Theorem readings_of_complete_rows (H : JS.Host) (clock : nat -> Z) (st : App)
    (data : list Row) (w : World) :
  let r := processData H clock st data w in
  Forall2 (readingOf H (powerThreshold st)) (filter rowComplete data)
    (panels (fst r))
  /\ (forall row, In row (filter rowComplete data) <->
        In row data /\ nonEmpty (row_id_panel row) /\ nonEmpty (row_power row)
        /\ nonEmpty (row_voltage row) /\ nonEmpty (row_timestamp row))
  /\ List.length (panels (fst r)) = List.length (filter rowComplete data)
  /\ dialogs (snd r) = dialogs w.
Proof.
  intros r. subst r. rewrite processData_run. simpl.
  assert (HF : Forall2 (readingOf H (powerThreshold st)) (filter rowComplete data)
                 (fst (parseRows H clock (powerThreshold st) data
                         (snd (resetTempId w))))).
  { unfold parseRows. apply mapM_Forall2. intros row w'.
    apply toPanel_readingOf. }
  split; [exact HF|split; [|split]].
  - intros row. rewrite filter_In, rowComplete_iff. tauto.
  - symmetry. eapply Forall2_length. exact HF.
  - rewrite generateAlerts_dialogs, parseRows_dialogs. reflexivity.
Qed.

(** C6, as the code has it: saving a valid draft whose edit target is set
    but is the id of no rule in the store changes no rule and adds none; the
    form is blank afterwards. *)
Theorem save_stray_edit (H : JS.Host) (clock : nat -> Z) (st : App) (w : World)
    (Hvalid : invalidDraft H (ruleForm st) = false)
    (Hset : truthyId (editId (ruleForm st)) = true)
    (Hstray : forall r, In r (rules st) -> sameId r (editId (ruleForm st)) = false) :
  rules (fst (saveRule H clock st w)) = rules st
  /\ ruleForm (fst (saveRule H clock st w)) = blankForm.
Proof.
  split.
  - rewrite saveRule_update by assumption. apply map_replace_none, Hstray.
  - apply saveRule_accepted, Hvalid.
Qed.

Lemma save_stray_edit_witness :
  invalidDraft Engine.host Demo.strayDraft = false
  /\ rules (fst (saveRule Engine.host Demo.steadyClock
       (Demo.app [Demo.powerBelow100] Demo.strayDraft) Demo.world0)) =
     [Demo.powerBelow100].
Proof.
  split; [vm_compute; reflexivity|].
  apply (save_stray_edit Engine.host Demo.steadyClock
           (Demo.app [Demo.powerBelow100] Demo.strayDraft) Demo.world0).
  - vm_compute. reflexivity.
  - vm_compute. reflexivity.
  - intros r [<-|[]]. vm_compute. reflexivity.
Defined.

(** C6 as stated fails: the stray draft is valid and its edit target is no
    rule of the store, yet the store holds one rule before and after. *)
Lemma save_stray_edit_appends_nothing :
  invalidDraft Engine.host Demo.strayDraft = false
  /\ truthyId (editId Demo.strayDraft) = true
  /\ sameId Demo.powerBelow100 (editId Demo.strayDraft) = false
  /\ List.length (rules (Demo.app [Demo.powerBelow100] Demo.strayDraft)) = 1%nat
  /\ List.length (rules (fst (saveRule Engine.host Demo.steadyClock
       (Demo.app [Demo.powerBelow100] Demo.strayDraft) Demo.world0))) = 1%nat.
Proof. repeat split; vm_compute; reflexivity. Qed.

(** C7, as the code has it: for a draft whose threshold field is not the
    number zero, saving is refused exactly when the threshold field is
    missing or empty, or does not read as a number (NaN; an infinite
    threshold is accepted), or the message is empty.  A refused save shows
    the validation message and leaves the rules and the draft as they were;
    an accepted save leaves the form blank with no edit target. *)
Theorem save_validation (H : JS.Host) (clock : nat -> Z) (st : App) (w : World)
    (Hnz : forall x, f_value (ruleForm st) = JS.VNum x ->
                     PrimFloat.is_zero x = false) :
  let f := ruleForm st in
  let r := saveRule H clock st w in
  (invalidDraft H f = true <->
     f_value f = JS.VUndef \/ f_value f = JS.VStr ""
     \/ JS.isNaN (JS.parseFloat H (f_value f)) = true \/ f_message f = "")
  /\ (invalidDraft H f = true ->
        fst r = st /\ dialogs (snd r) = dialogs w ++ [validationMessage])
  /\ (invalidDraft H f = false ->
        ruleForm (fst r) = blankForm /\ dialogs (snd r) = dialogs w).
Proof.
  intros f r. subst f r. split; [|split].
  - apply invalidDraft_iff, Hnz.
  - intros Hbad. rewrite saveRule_rejected by assumption. split; reflexivity.
  - apply saveRule_accepted.
Qed.

Lemma save_validation_witness :
  invalidDraft Engine.host Demo.plainDraft = false
  /\ ruleForm (fst (saveRule Engine.host Demo.steadyClock
       (Demo.app [] Demo.plainDraft) Demo.world0)) = blankForm.
Proof.
  split; [vm_compute; reflexivity|].
  apply (save_validation Engine.host Demo.steadyClock
           (Demo.app [] Demo.plainDraft) Demo.world0).
  - intros x Hx. discriminate Hx.
  - vm_compute. reflexivity.
Defined.

(** C7 as stated fails: the threshold "Infinity" is not a finite number, and
    the draft is saved all the same. *)
Lemma save_accepts_infinite_threshold :
  PrimFloat.is_finite
    (JS.parseFloat Engine.host (f_value Demo.infiniteDraft)) = false
  /\ invalidDraft Engine.host Demo.infiniteDraft = false
  /\ map value (rules (fst (saveRule Engine.host Demo.steadyClock
       (Demo.app [] Demo.infiniteDraft) Demo.world0))) = [PrimFloat.infinity]
  /\ dialogs (snd (saveRule Engine.host Demo.steadyClock
       (Demo.app [] Demo.infiniteDraft) Demo.world0)) = [].
Proof. repeat split; vm_compute; reflexivity. Qed.




(** C9: when the clock never runs backwards, the ids of the alerts of one
    pass over a batch are pairwise distinct, also for the alerts of one
    reading. *)
Theorem alert_ids_distinct (H : JS.Host) (clock : nat -> Z) (st : App)
    (data : list Row) (w : World)
    (Hclock : forall n, clock n <= clock (S n)) :
  NoDup (map a_id (alerts (fst (processData H clock st data w)))).
Proof.
  rewrite processData_run. simpl.
  eapply ascending_NoDup. apply issues_generateAlerts. exact Hclock.
Qed.

Lemma alert_ids_distinct_witness :
  List.length (alerts (fst (processData Engine.host Demo.steadyClock
     (Demo.app [Demo.powerBelow100; Demo.voltageAbove0] blankForm)
     Demo.batch Demo.world0))) = 8%nat
  /\ NoDup (map a_id (alerts (fst (processData Engine.host Demo.steadyClock
       (Demo.app [Demo.powerBelow100; Demo.voltageAbove0] blankForm)
       Demo.batch Demo.world0)))).
Proof.
  split; [vm_compute; reflexivity|].
  apply (alert_ids_distinct Engine.host Demo.steadyClock).
  intros n. unfold Demo.steadyClock. lia.
Defined.

(** C10: when [editRule] fills the draft from a rule whose threshold is the
    number 0, saving that draft unchanged is refused, although 0 is a finite
    number and the message is not empty: the validation message is shown and
    the rules and the draft stay as they were. *)
Theorem resave_zero_threshold (H : JS.Host) (clock : nat -> Z) (st : App)
    (rule : Rule) (w : World)
    (Hzero : value rule = 0%float) :
  PrimFloat.is_finite (value rule) = true
  /\ invalidDraft H (ruleForm (editRule st rule)) = true
  /\ fst (saveRule H clock (editRule st rule) w) = editRule st rule
  /\ rules (fst (saveRule H clock (editRule st rule) w)) = rules st
  /\ dialogs (snd (saveRule H clock (editRule st rule) w)) =
       dialogs w ++ [validationMessage].
Proof.
  assert (Hbad : invalidDraft H (ruleForm (editRule st rule)) = true).
  { unfold invalidDraft, editRule. simpl. rewrite Hzero. reflexivity. }
  rewrite saveRule_rejected by exact Hbad.
  repeat split; [rewrite Hzero; reflexivity|exact Hbad].
Qed.

Lemma resave_zero_threshold_witness :
  JS.truthyStr (message Demo.voltageAbove0) = true
  /\ rules (fst (saveRule Engine.host Demo.steadyClock
       (editRule (Demo.app [Demo.voltageAbove0] blankForm) Demo.voltageAbove0)
       Demo.world0)) = [Demo.voltageAbove0]
  /\ dialogs (snd (saveRule Engine.host Demo.steadyClock
       (editRule (Demo.app [Demo.voltageAbove0] blankForm) Demo.voltageAbove0)
       Demo.world0)) = [validationMessage].
Proof.
  split; [reflexivity|].
  apply (resave_zero_threshold Engine.host Demo.steadyClock
           (Demo.app [Demo.voltageAbove0] blankForm) Demo.voltageAbove0
           Demo.world0).
  reflexivity.
Defined.

(** ** Further properties of the component *)

Lemma Forall2_in_r {A B} (R : A -> B -> Prop) (l : list A) (ps : list B) :
  Forall2 R l ps -> forall p, In p ps -> exists x, In x l /\ R x p.
Proof.
  induction 1 as [|x q l ps Hxq _ IH]; intros p Hp; [contradiction|].
  destruct Hp as [<-|Hp].
  - exists x. split; [left; reflexivity|exact Hxq].
  - destruct (IH p Hp) as (y & Hy & Hr). exists y. split; [right|]; assumption.
Qed.

Lemma Forall2_in_l {A B} (R : A -> B -> Prop) (l : list A) (ps : list B) :
  Forall2 R l ps -> forall x, In x l -> exists p, In p ps /\ R x p.
Proof.
  induction 1 as [|y q l ps Hyq _ IH]; intros x Hx; [contradiction|].
  destruct Hx as [<-|Hx].
  - exists q. split; [left; reflexivity|exact Hyq].
  - destruct (IH x Hx) as (p & Hp & Hr). exists p. split; [right|]; assumption.
Qed.

Section PipelineFacts.

Variable H : JS.Host.
Variable clock : nat -> Z.

Lemma processData_panels (st : App) (data : list Row) (w : World) :
  Forall2 (readingOf H (powerThreshold st)) (filter rowComplete data)
    (panels (fst (processData H clock st data w))).
Proof.
  rewrite processData_run. simpl. unfold parseRows.
  apply mapM_Forall2. intros row w'. apply toPanel_readingOf.
Qed.

Lemma processData_bodies (st : App) (data : list Row) (w : World) :
  let ps := panels (fst (processData H clock st data w)) in
  map semantic (alerts (fst (processData H clock st data w))) =
  flat_map (expectedAlerts H (voltageThreshold st) (meanPower ps)
              (stdDevPower ps) (rules st)) ps.
Proof.
  rewrite processData_run. simpl. apply generateAlerts_body.
Qed.

(** A reading of the batch comes from a complete row of it. *)
Lemma processData_reading_row (st : App) (data : list Row) (w : World)
    (p : Panel) :
  In p (panels (fst (processData H clock st data w))) ->
  exists row, In row data /\ rowComplete row = true
              /\ readingOf H (powerThreshold st) row p.
Proof.
  intros Hp.
  destruct (Forall2_in_r _ _ _ (processData_panels st data w) p Hp)
    as (row & Hrow & Hr).
  apply filter_In in Hrow. exists row. tauto.
Qed.

End PipelineFacts.

(** X1: after a batch is processed, the power and the voltage of every
    reading are numbers (never NaN), and every reading has a panel id that
    is present and not empty. *)
Theorem readings_hold_numbers (H : JS.Host) (clock : nat -> Z) (st : App)
    (data : list Row) (w : World) :
  Forall (fun p => JS.isNaN (powerOut p) = false
                   /\ JS.isNaN (voltage p) = false
                   /\ nonEmpty (id_panel p))
    (panels (fst (processData H clock st data w))).
Proof.
  apply Forall_forall. intros p Hp.
  destruct (processData_reading_row H clock st data w p Hp)
    as (row & _ & Hc & (Hid & Hpow & Hvolt & _)).
  apply rowComplete_iff in Hc. destruct Hc as (Hn & _).
  rewrite Hpow, Hvolt, Hid. repeat split; [| |exact Hn].
  - destruct (JS.isNaN (JS.parseFloat H (JS.ofField (row_power row)))) eqn:E;
      [reflexivity|exact E].
  - destruct (JS.isNaN (JS.parseFloat H (JS.ofField (row_voltage row)))) eqn:E;
      [reflexivity|exact E].
Qed.

(** X2: the status stored with a reading agrees with its stored power: the
    reading is offline iff its power equals 0 (a power that did not parse is
    stored as 0), low iff its power is not 0 and below the power threshold,
    and normal otherwise. *)
Theorem status_matches_stored_power (H : JS.Host) (clock : nat -> Z) (st : App)
    (data : list Row) (w : World) :
  Forall (fun p =>
            (panelStatus p = offline <-> JS.seq (powerOut p) 0%float = true)
            /\ (panelStatus p = low <->
                  JS.seq (powerOut p) 0%float = false
                  /\ JS.lt (powerOut p) (powerThreshold st) = true)
            /\ (panelStatus p = normal <->
                  JS.seq (powerOut p) 0%float = false
                  /\ JS.lt (powerOut p) (powerThreshold st) = false))
    (panels (fst (processData H clock st data w))).
Proof.
  apply Forall_forall. intros p Hp.
  destruct (processData_reading_row H clock st data w p Hp)
    as (row & _ & _ & (_ & Hpow & _ & Hst & _)).
  rewrite Hpow, Hst. unfold classify.
  destruct (JS.isNaN (JS.parseFloat H (JS.ofField (row_power row)))) eqn:E.
  - simpl. change (JS.seq 0 0) with true.
    repeat split; try reflexivity; try discriminate; intros [? ?]; discriminate.
  - simpl.
    destruct (JS.seq (JS.parseFloat H (JS.ofField (row_power row))) 0);
      destruct (JS.lt (JS.parseFloat H (JS.ofField (row_power row)))
                  (powerThreshold st));
      repeat split; try reflexivity; try discriminate;
      try (intros [? ?]; discriminate).
Qed.

(** X3: every alert of a processed batch belongs to a reading of that batch:
    it carries the panel id and the time of one of the readings, and its
    panel id is present and not empty. *)
Theorem alerts_belong_to_readings (H : JS.Host) (clock : nat -> Z) (st : App)
    (data : list Row) (w : World) :
  let st' := fst (processData H clock st data w) in
  Forall (fun a => nonEmpty (a_id_panel a)
                   /\ exists p, In p (panels st')
                                /\ a_id_panel a = id_panel p
                                /\ a_when a = when p)
    (alerts st').
Proof.
  intros st'. apply Forall_forall. intros a Ha.
  assert (Hb : In (semantic a) (map semantic (alerts st'))) by (apply in_map, Ha).
  unfold st' in Hb. rewrite processData_bodies in Hb.
  apply in_flat_map in Hb. destruct Hb as (p & Hp & Hb).
  apply expectedAlerts_carry in Hb. simpl in Hb. destruct Hb as [Hid Hwhen].
  split; [|exists p; tauto].
  destruct (processData_reading_row H clock st data w p Hp)
    as (row & _ & Hc & (Hrow & _)).
  apply rowComplete_iff in Hc. rewrite Hid, Hrow. tauto.
Qed.

(** X4: a complete row whose power does not read as a number is stored with
    the power 0 and reported as offline with the critical theft alert; one
    whose voltage does not read as a number is stored with the voltage 0 and,
    when the voltage threshold is above 0, reported with the low-voltage
    warning. *)
Theorem unparsed_fields_are_reported (H : JS.Host) (clock : nat -> Z) (st : App)
    (data : list Row) (w : World) (row : Row)
    (Hin : In row data) (Hcomplete : rowComplete row = true) :
  let st' := fst (processData H clock st data w) in
  exists p,
    In p (panels st') /\ id_panel p = row_id_panel row
    /\ (JS.isNaN (JS.parseFloat H (JS.ofField (row_power row))) = true ->
          powerOut p = 0%float /\ panelStatus p = offline
          /\ In (bodyFor p (offlineMessage p) "critical")
               (map semantic (alerts st')))
    /\ (JS.isNaN (JS.parseFloat H (JS.ofField (row_voltage row))) = true ->
          voltage p = 0%float
          /\ (JS.lt 0%float (voltageThreshold st) = true ->
                In (bodyFor p (lowVoltageMessage H p) "warning")
                  (map semantic (alerts st')))).
Proof.
  intros st'.
  assert (Hrow : In row (filter rowComplete data)) by (apply filter_In; tauto).
  destruct (Forall2_in_l _ _ _ (processData_panels H clock st data w) row Hrow)
    as (p & Hp & (Hid & Hpow & Hvolt & Hst & _)).
  exists p. split; [exact Hp|]. split; [exact Hid|].
  unfold st'. rewrite processData_bodies. simpl. split.
  - intros Hnan. rewrite Hnan in Hpow. unfold classify in Hst.
    rewrite Hnan in Hst. simpl in Hst.
    split; [exact Hpow|]. split; [exact Hst|].
    apply in_flat_map. exists p. split; [exact Hp|].
    unfold expectedAlerts, statusPart. rewrite Hst.
    apply in_or_app. left. left. reflexivity.
  - intros Hnan. rewrite Hnan in Hvolt. split; [exact Hvolt|].
    intros Hthr. apply in_flat_map. exists p. split; [exact Hp|].
    unfold expectedAlerts, voltagePart. rewrite Hvolt, Hthr.
    apply in_or_app. right. apply in_or_app. left. left. reflexivity.
Qed.

Lemma unparsed_fields_are_reported_witness :
  JS.isNaN (JS.parseFloat Engine.host (JS.ofField (row_power Demo.garbledRow)))
    = true
  /\ exists p,
       In p (panels (fst (processData Engine.host Demo.steadyClock
               (Demo.app [] blankForm) Demo.garbledBatch Demo.world0)))
       /\ id_panel p = Some "PV002".
Proof.
  split; [vm_compute; reflexivity|].
  destruct (unparsed_fields_are_reported Engine.host Demo.steadyClock
              (Demo.app [] blankForm) Demo.garbledBatch Demo.world0
              Demo.garbledRow)
    as (p & Hp & Hid & _).
  - right. left. reflexivity.
  - vm_compute. reflexivity.
  - exists p. split; [exact Hp|exact Hid].
Defined.

(** X5: a batch without any complete row (an empty batch too) replaces the
    readings and the alerts by empty lists, without a message, a sound or a
    reading of the clock. *)
Theorem batch_without_complete_rows (H : JS.Host) (clock : nat -> Z) (st : App)
    (data : list Row) (w : World)
    (Hnone : forall row, In row data -> rowComplete row = false) :
  processData H clock st data w =
  (setPanelsAlerts st [] [],
   {| tempId := 0; ticks := ticks w; sounds := sounds w;
      dialogs := dialogs w |}).
Proof.
  assert (Hf : filter rowComplete data = []).
  { induction data as [|row data IH]; [reflexivity|]. simpl.
    rewrite (Hnone row (or_introl eq_refl)). apply IH.
    intros r Hr. apply Hnone. right. exact Hr. }
  unfold processData, parseRows. rewrite Hf. reflexivity.
Qed.

Lemma batch_without_complete_rows_witness :
  panels (fst (processData Engine.host Demo.steadyClock
     (Demo.app [Demo.powerBelow100] blankForm) Demo.brokenBatch Demo.world0))
  = [].
Proof.
  rewrite (batch_without_complete_rows Engine.host Demo.steadyClock
             (Demo.app [Demo.powerBelow100] blankForm) Demo.brokenBatch
             Demo.world0).
  - reflexivity.
  - intros row [<-|[<-|[]]]; reflexivity.
Defined.

(** *** Sounds and alerts, counted *)

Lemma mapM_measure {A B} (f : A -> M B) (mu : World -> nat) (a : A -> nat)
    (b : B -> nat) :
  (forall x w, mu (snd (f x w)) + a x = mu w + b (fst (f x w)))%nat ->
  forall l w,
    (mu (snd (mapM f l w)) + list_sum (map a l) =
     mu w + list_sum (map b (fst (mapM f l w))))%nat.
Proof.
  intros Hf l. induction l as [|x l IH]; intros w.
  - simpl. lia.
  - rewrite mapM_cons. simpl.
    specialize (IH (snd (f x w))). specialize (Hf x w). lia.
Qed.

Lemma count_concat {A} (c : A -> bool) (ls : list (list A)) :
  List.length (filter c (List.concat ls)) =
  list_sum (map (fun l => List.length (filter c l)) ls).
Proof.
  induction ls as [|l ls IH]; simpl; [reflexivity|].
  rewrite filter_app, length_app, IH. reflexivity.
Qed.

Section Tally.

Variable H : JS.Host.
Variable clock : nat -> Z.

(** Which sounds and which severities are counted. *)
Variable countedSound : Sound -> bool.
Variable countedSeverity : string -> bool.
Hypothesis theft_critical : countedSound TheftSound = countedSeverity "critical".
Hypothesis warning_warning : countedSound WarningSound = countedSeverity "warning".
Hypothesis by_severity : forall sev,
  countedSound (if String.eqb sev "critical" then TheftSound else WarningSound)
  = countedSeverity sev.

Local Abbreviation sounded := (soundCount countedSound).
Local Abbreviation raised := (alertCount countedSeverity).
Local Abbreviation parsed := (parseSounds countedSound).

Lemma soundCount_play (s : Sound) (w : World) :
  sounded (snd (play s w)) = (sounded w + weight (countedSound s))%nat.
Proof.
  unfold soundCount. simpl. rewrite filter_app, length_app. simpl.
  destruct (countedSound s); reflexivity.
Qed.

Lemma toPanel_sounds (thr : float) (row : Row) (w : World) :
  (sounded (snd (toPanel H clock thr row w)) + 0 =
   sounded w + parsed (fst (toPanel H clock thr row w)))%nat.
Proof.
  unfold toPanel, parseSounds. rewrite !bind_run. simpl.
  rewrite classifyAndPlay_value.
  assert (Hs : sounded (snd (classifyAndPlay thr
                 (JS.parseFloat H (JS.ofField (row_power row))) w)) =
               (sounded w + match classify thr
                  (JS.parseFloat H (JS.ofField (row_power row))) with
                | offline => weight (countedSound TheftSound)
                | low => weight (countedSound WarningSound)
                | normal => 0
                end)%nat).
  { unfold classifyAndPlay, classify.
    destruct (JS.isNaN _ || JS.seq _ 0).
    - rewrite bind_run. apply soundCount_play.
    - destruct (JS.lt _ thr).
      + rewrite bind_run. apply soundCount_play.
      + simpl. lia. }
  destruct (parseTimestamp H (row_timestamp row)); simpl;
    unfold soundCount in *; simpl; lia.
Qed.

Lemma pushAlert_tally (p : Panel) (msg sev : string) (w : World) :
  sounded (snd (pushAlert clock p msg sev w)) = sounded w
  /\ raised (fst (pushAlert clock p msg sev w)) =
       weight (countedSeverity sev).
Proof.
  unfold pushAlert. rewrite bind_run. unfold alertCount. simpl.
  destruct (countedSeverity sev); split; reflexivity.
Qed.

Lemma pushAlert_play_tally (p : Panel) (msg sev : string) (s : Sound)
    (w : World) :
  countedSound s = countedSeverity sev ->
  sounded (snd ((a <- pushAlert clock p msg sev ;; play s ;;; ret a) w)) =
  (sounded w
   + raised (fst ((a <- pushAlert clock p msg sev ;; play s ;;; ret a) w)))%nat.
Proof.
  intros Hs. rewrite !bind_run. cbn [fst snd ret].
  rewrite soundCount_play.
  destruct (pushAlert_tally p msg sev w) as [-> ->]. rewrite Hs. reflexivity.
Qed.

Lemma list_sum_zero {A} (l : list A) : list_sum (map (fun _ => 0%nat) l) = 0%nat.
Proof. induction l; simpl; auto. Qed.

Lemma ruleAlert_tally (p : Panel) (r : Rule) (w : World) :
  (sounded (snd (ruleAlert H clock p r w)) + 0 =
   sounded w + raised (fst (ruleAlert H clock p r w)))%nat.
Proof.
  unfold ruleAlert. destruct (conditionMet H r p).
  - pose proof (by_severity (severity r)) as Hs.
    destruct (String.eqb (severity r) "critical");
      unfold playTheftAlertSound, playWarningAlertSound;
      rewrite pushAlert_play_tally by exact Hs; lia.
  - unfold alertCount, ret. simpl. lia.
Qed.

Lemma customAlerts_tally (rs : list Rule) (p : Panel) (w : World) :
  sounded (snd (customAlerts H clock rs p w)) =
  (sounded w + raised (fst (customAlerts H clock rs p w)))%nat.
Proof.
  unfold customAlerts. rewrite bind_run. cbn [fst snd ret].
  pose proof (mapM_measure (ruleAlert H clock p) sounded (fun _ => 0%nat)
                raised (ruleAlert_tally p) rs w) as Hm.
  rewrite list_sum_zero in Hm.
  unfold alertCount in *. rewrite count_concat. lia.
Qed.

Lemma panelAlerts_tally (voltThr meanP stdP : float) (rs : list Rule)
    (p : Panel) (w : World) :
  (sounded (snd (panelAlerts H clock voltThr meanP stdP rs p w))
   + parsed p =
   sounded w
   + raised (fst (panelAlerts H clock voltThr meanP stdP rs p w)))%nat.
Proof.
  unfold panelAlerts. rewrite !bind_run. cbn [fst snd ret].
  unfold alertCount. rewrite !filter_app, !length_app.
  fold (raised (fst (statusAlerts H clock p w))).
  set (w1 := snd (statusAlerts H clock p w)).
  fold (raised (fst (voltageAlerts H clock voltThr p w1))).
  set (w2 := snd (voltageAlerts H clock voltThr p w1)).
  fold (raised (fst (anomalyAlerts H clock meanP stdP p w2))).
  set (w3 := snd (anomalyAlerts H clock meanP stdP p w2)).
  fold (raised (fst (customAlerts H clock rs p w3))).
  rewrite customAlerts_tally.
  assert (H1 : (sounded w1 + parsed p =
                sounded w + raised (fst (statusAlerts H clock p w)))%nat).
  { unfold w1, statusAlerts, parseSounds.
    destruct (panelStatus p).
    - unfold alertCount, ret. simpl. lia.
    - destruct (pushAlert_tally p (lowPowerMessage H p) "warning" w) as [-> ->].
      rewrite warning_warning. lia.
    - destruct (pushAlert_tally p (offlineMessage p) "critical" w) as [-> ->].
      rewrite theft_critical. lia. }
  assert (H2 : sounded w2 =
               (sounded w1
                + raised (fst (voltageAlerts H clock voltThr p w1)))%nat).
  { unfold w2, voltageAlerts. destruct (JS.lt (voltage p) voltThr).
    - apply pushAlert_play_tally, warning_warning.
    - unfold alertCount, ret. simpl. lia. }
  assert (H3 : sounded w3 =
               (sounded w2
                + raised (fst (anomalyAlerts H clock meanP stdP p w2)))%nat).
  { unfold w3, anomalyAlerts. destruct (isAnomalous meanP stdP p).
    - apply pushAlert_play_tally, warning_warning.
    - unfold alertCount, ret. simpl. lia. }
  lia.
Qed.

Lemma processData_tally (st : App) (data : list Row) (w : World) :
  sounded (snd (processData H clock st data w)) =
  (sounded w + raised (alerts (fst (processData H clock st data w))))%nat.
Proof.
  rewrite processData_run. cbv zeta. cbn [fst snd alerts setPanelsAlerts].
  set (w0 := snd (resetTempId w)).
  assert (H0 : sounded w0 = sounded w) by reflexivity.
  pose proof (mapM_measure (toPanel H clock (powerThreshold st)) sounded
                (fun _ => 0%nat) parsed
                (toPanel_sounds (powerThreshold st))
                (filter rowComplete data) w0) as H1.
  fold (parseRows H clock (powerThreshold st) data) in H1.
  set (r1 := parseRows H clock (powerThreshold st) data w0) in *.
  unfold generateAlerts. rewrite bind_run. cbn [fst snd ret].
  pose proof (mapM_measure
                (panelAlerts H clock (voltageThreshold st) (meanPower (fst r1))
                   (stdDevPower (fst r1)) (rules st))
                sounded parsed raised
                (panelAlerts_tally _ _ _ _) (fst r1) (snd r1)) as H2.
  rewrite list_sum_zero in H1.
  unfold alertCount in *. rewrite count_concat. lia.
Qed.

End Tally.

(** X6: processing a batch plays exactly one sound for each alert it raises,
    and the theft sound exactly as often as it raises a critical alert (the
    other sounds are the warning sound). *)
Theorem one_sound_per_alert (H : JS.Host) (clock : nat -> Z) (st : App)
    (data : list Row) (w : World) :
  let r := processData H clock st data w in
  List.length (sounds (snd r)) =
    (List.length (sounds w) + List.length (alerts (fst r)))%nat
  /\ thefts (sounds (snd r)) =
       (thefts (sounds w) + criticalAlerts (alerts (fst r)))%nat.
Proof.
  intros r. subst r. split.
  - pose proof (processData_tally H clock (fun _ => true) (fun _ => true)
                  eq_refl eq_refl
                  (fun sev => match String.eqb sev "critical" as b
                                return ((fun _ => true)
                                          (if b then TheftSound else WarningSound)
                                        = true)
                              with true => eq_refl | false => eq_refl end)
                  st data w) as Ht.
    unfold soundCount, alertCount in Ht.
    rewrite !filter_true in Ht.
    exact Ht.
  - pose proof (processData_tally H clock isTheft
                  (fun sev => String.eqb sev "critical")
                  eq_refl eq_refl
                  (fun sev => match String.eqb sev "critical" as b
                                return (isTheft
                                          (if b then TheftSound else WarningSound)
                                        = b)
                              with true => eq_refl | false => eq_refl end)
                  st data w) as Ht.
    exact Ht.
Qed.

Section Counting.

Variable H : JS.Host.

Lemma criticalAlerts_bodies (l : list Alert) :
  criticalAlerts l = List.length (filter criticalBody (map semantic l)).
Proof.
  unfold criticalAlerts. induction l as [|a l IH]; simpl; [reflexivity|].
  unfold isCritical, criticalBody at 1. simpl.
  destruct (String.eqb (severityLevel a) "critical"); simpl; rewrite <- IH;
    reflexivity.
Qed.

Lemma rulePart_critical (rs : list Rule) (p : Panel) :
  List.length (filter criticalBody (rulePart H rs p)) =
  List.length (filter (fun r => conditionMet H r p && criticalRule r) rs).
Proof.
  unfold rulePart. induction rs as [|r rs IH]; simpl; [reflexivity|].
  destruct (conditionMet H r p); simpl; [|exact IH].
  unfold criticalBody at 1, criticalRule at 1. simpl.
  destruct (String.eqb (severity r) "critical"); simpl; rewrite IH; reflexivity.
Qed.

Lemma expectedAlerts_critical (vt mu sd : float) (rs : list Rule) (p : Panel) :
  List.length (filter criticalBody (expectedAlerts H vt mu sd rs p)) =
  (List.length (filter (hasStatus offline) [p])
   + List.length (filter (fun r => conditionMet H r p && criticalRule r) rs))%nat.
Proof.
  unfold expectedAlerts. rewrite !filter_app, !length_app, rulePart_critical.
  unfold statusPart, voltagePart, anomalyPart, hasStatus. simpl.
  destruct (panelStatus p); destruct (JS.lt (voltage p) vt);
    destruct (isAnomalous mu sd p); reflexivity.
Qed.

Lemma expectedAlerts_length (vt mu sd : float) (rs : list Rule) (p : Panel) :
  (List.length (expectedAlerts H vt mu sd rs p) <= 3 + List.length rs)%nat.
Proof.
  unfold expectedAlerts, rulePart. rewrite !length_app, length_map.
  pose proof (filter_length_le (fun r => conditionMet H r p) rs).
  unfold statusPart, voltagePart, anomalyPart.
  destruct (panelStatus p); destruct (JS.lt (voltage p) vt);
    destruct (isAnomalous mu sd p); simpl; lia.
Qed.

Lemma flat_map_critical (f : Panel -> list AlertBody) (extra : Panel -> nat)
    (ps : list Panel) :
  (forall p, List.length (filter criticalBody (f p)) =
             (List.length (filter (hasStatus offline) [p]) + extra p)%nat) ->
  List.length (filter criticalBody (flat_map f ps)) =
  (List.length (filter (hasStatus offline) ps) + list_sum (map extra ps))%nat.
Proof.
  intros Hf. induction ps as [|p ps IH]; simpl; [reflexivity|].
  rewrite filter_app, length_app, Hf, IH. simpl.
  destruct (hasStatus offline p); simpl; lia.
Qed.

Lemma no_critical_matches (rs : list Rule) (ps : list Panel) :
  Forall (fun r => severity r <> "critical") rs ->
  list_sum (map (fun p => List.length
              (filter (fun r => conditionMet H r p && criticalRule r) rs)) ps)
  = 0%nat.
Proof.
  intros Hno.
  assert (Hz : forall p, List.length
                 (filter (fun r => conditionMet H r p && criticalRule r) rs)
               = 0%nat).
  { intros p. induction Hno as [|r rs Hr _ IH]; simpl; [reflexivity|].
    unfold criticalRule at 1. apply String.eqb_neq in Hr. rewrite Hr.
    rewrite andb_false_r. exact IH. }
  induction ps as [|p ps IH]; simpl; [reflexivity|]. rewrite Hz, IH.
  reflexivity.
Qed.

Lemma status_counts (ps : list Panel) :
  (List.length (filter (hasStatus normal) ps)
   + List.length (filter (hasStatus offline) ps) <= List.length ps)%nat.
Proof.
  induction ps as [|p ps IH]; [simpl; lia|].
  cbn [filter List.length].
  destruct (hasStatus normal p) eqn:E1; destruct (hasStatus offline p) eqn:E2;
    cbn [List.length]; try lia.
  unfold hasStatus in E1, E2. destruct (panelStatus p); discriminate.
Qed.

Lemma flat_map_length_le {A B} (f : A -> list B) (k : nat) (l : list A) :
  (forall x, List.length (f x) <= k)%nat ->
  (List.length (flat_map f l) <= List.length l * k)%nat.
Proof.
  intros Hf. induction l as [|x l IH]; simpl; [lia|].
  rewrite length_app. specialize (Hf x). lia.
Qed.

End Counting.

(** X7: after a batch is processed, every offline reading has its critical
    alert: the number of offline readings shown on the dashboard is at most
    the number of critical alerts, and equals it when no rule has the
    severity "critical"; the normal and the offline readings together are at
    most all readings. *)
Theorem offline_readings_and_critical_alerts (H : JS.Host) (clock : nat -> Z)
    (st : App) (data : list Row) (w : World) :
  let st' := fst (processData H clock st data w) in
  (offlinePanels st' <= criticalAlerts (alerts st'))%nat
  /\ (Forall (fun r => severity r <> "critical") (rules st) ->
        criticalAlerts (alerts st') = offlinePanels st')
  /\ (activePanels st' + offlinePanels st' <= totalPanels st')%nat.
Proof.
  intros st'.
  assert (Hc : criticalAlerts (alerts st') =
               (offlinePanels st'
                + list_sum (map (fun p => List.length
                     (filter (fun r => conditionMet H r p && criticalRule r)
                        (rules st))) (panels st')))%nat).
  { rewrite criticalAlerts_bodies. unfold st'. rewrite processData_bodies.
    cbv zeta. apply flat_map_critical. intros p. apply expectedAlerts_critical. }
  split; [lia|]. split.
  - intros Hno. rewrite Hc, (no_critical_matches H _ _ Hno). lia.
  - apply status_counts.
Qed.

(** X8: a reading raises at most three built-in alerts and at most one alert
    per rule, so a batch raises at most (3 + number of rules) alerts for each
    of its readings. *)
Theorem alerts_bounded (H : JS.Host) (clock : nat -> Z) (st : App)
    (data : list Row) (w : World) :
  let st' := fst (processData H clock st data w) in
  (List.length (alerts st') <=
   List.length (panels st') * (3 + List.length (rules st)))%nat.
Proof.
  intros st'. rewrite <- (length_map semantic). unfold st'.
  rewrite processData_bodies. cbv zeta.
  apply flat_map_length_le. intros p. apply expectedAlerts_length.
Qed.

(** *** Ids of readings *)

Section ReadingIds.

Variable H : JS.Host.
Variable clock : nat -> Z.
Hypothesis clock_mono : forall n, clock n <= clock (S n).

Lemma toPanel_ascending (thr : float) (row : Row) (w : World) :
  ascending (nextId clock w) [p_id (fst (toPanel H clock thr row w))]
    (nextId clock (snd (toPanel H clock thr row w))).
Proof.
  unfold toPanel. rewrite !bind_run. cbn [fst snd ret].
  set (w1 := snd (classifyAndPlay thr
                    (JS.parseFloat H (JS.ofField (row_power row))) w)).
  assert (Hw1 : nextId clock w1 = nextId clock w).
  { unfold w1, classifyAndPlay.
    destruct (JS.isNaN _ || JS.seq _ 0); [reflexivity|].
    destruct (JS.lt _ thr); reflexivity. }
  unfold nextId in *. simpl.
  pose proof (clock_mono (ticks w1)) as M1.
  pose proof (clock_mono (S (ticks w1))) as M2.
  destruct (parseTimestamp H (row_timestamp row)); simpl; lia.
Qed.

Lemma parseRows_ascending (thr : float) (data : list Row) (w : World) :
  ascending (nextId clock w) (map p_id (fst (parseRows H clock thr data w)))
    (nextId clock (snd (parseRows H clock thr data w))).
Proof.
  unfold parseRows. generalize (filter rowComplete data). intros l. revert w.
  induction l as [|row l IH]; intros w.
  - simpl. lia.
  - rewrite mapM_cons. cbn [fst snd map].
    apply (ascending_app _ _ _ [_] _ (toPanel_ascending thr row w)), IH.
Qed.

Lemma processData_ascending (st : App) (data : list Row) (w : World) :
  let r := processData H clock st data w in
  ascending (clock (ticks w))
    (map p_id (panels (fst r)) ++ map a_id (alerts (fst r)))
    (nextId clock (snd r)).
Proof.
  rewrite processData_run. cbv zeta. cbn [fst snd panels alerts setPanelsAlerts].
  eapply ascending_app.
  - pose proof (parseRows_ascending (powerThreshold st) data
                  (snd (resetTempId w))) as Hp.
    unfold nextId at 1 in Hp. simpl in Hp. rewrite Z.add_0_r in Hp. exact Hp.
  - apply issues_generateAlerts, clock_mono.
Qed.

End ReadingIds.

(** X9: when the clock never runs backwards, the ids given in one pass over
    a batch, to the readings and to the alerts together, are pairwise
    distinct, and none is below the time at which the pass began. *)
Theorem batch_ids_distinct (H : JS.Host) (clock : nat -> Z) (st : App)
    (data : list Row) (w : World)
    (Hclock : forall n, clock n <= clock (S n)) :
  let st' := fst (processData H clock st data w) in
  NoDup (map p_id (panels st') ++ map a_id (alerts st'))
  /\ Forall (fun i => clock (ticks w) <= i)
       (map p_id (panels st') ++ map a_id (alerts st')).
Proof.
  intros st'. pose proof (processData_ascending H clock Hclock st data w) as Ha.
  cbv zeta in Ha. fold st' in Ha. split.
  - eapply ascending_NoDup, Ha.
  - apply Forall_forall. apply (ascending_bounds _ _ _ Ha).
Qed.

Lemma batch_ids_distinct_witness :
  NoDup (map p_id (panels (fst (processData Engine.host Demo.steadyClock
           (Demo.app [Demo.powerBelow100] blankForm) Demo.batch Demo.world0)))
         ++ map a_id (alerts (fst (processData Engine.host Demo.steadyClock
           (Demo.app [Demo.powerBelow100] blankForm) Demo.batch Demo.world0)))).
Proof.
  apply (batch_ids_distinct Engine.host Demo.steadyClock
           (Demo.app [Demo.powerBelow100] blankForm) Demo.batch Demo.world0).
  intros n. unfold Demo.steadyClock. lia.
Defined.

(** *** Dismissing an alert *)

Lemma filter_keeps_all {A} (c : A -> bool) (l : list A) :
  (forall x, In x l -> c x = true) -> filter c l = l.
Proof.
  intros Hc. induction l as [|x l IH]; simpl; [reflexivity|].
  rewrite (Hc x (or_introl eq_refl)). f_equal. apply IH.
  intros y Hy. apply Hc. right. exact Hy.
Qed.

Lemma filter_removes_one {A} (f : A -> Z) (l : list A) (a : A) :
  NoDup (map f l) -> In a l ->
  exists l1 l2, l = l1 ++ a :: l2
                /\ filter (fun x => negb (Z.eqb (f x) (f a))) l = l1 ++ l2.
Proof.
  induction l as [|x l IH]; intros Hnd Hin; [contradiction|].
  simpl in Hnd. inversion Hnd as [|y ys Hx Hl]; subst.
  destruct Hin as [->|Hin].
  - exists [], l. split; [reflexivity|]. simpl. rewrite Z.eqb_refl. simpl.
    apply filter_keeps_all. intros y Hy.
    apply negb_true_iff, Z.eqb_neq. intros E. apply Hx. rewrite <- E.
    apply in_map, Hy.
  - destruct (IH Hl Hin) as (l1 & l2 & E1 & E2).
    exists (x :: l1), l2. split; [rewrite E1; reflexivity|]. simpl.
    assert (Hne : Z.eqb (f x) (f a) = false).
    { apply Z.eqb_neq. intros E. apply Hx. rewrite E. apply in_map, Hin. }
    rewrite Hne. simpl. rewrite E2. reflexivity.
Qed.

(** X10: when the clock never runs backwards, dismissing an alert of the
    processed batch removes that alert and no other: the remaining alerts
    keep their order, the readings and the rules stay, and no alert is
    selected any more.  Dismissing an id that no alert carries changes no
    alert. *)
Theorem dismiss_removes_one (H : JS.Host) (clock : nat -> Z) (st : App)
    (data : list Row) (w : World) (sel : Selection) (a : Alert)
    (Hclock : forall n, clock n <= clock (S n))
    (Hin : In a (alerts (fst (processData H clock st data w)))) :
  let st' := fst (processData H clock st data w) in
  let r := dismissAlert st' sel (a_id a) in
  (exists l1 l2, alerts st' = l1 ++ a :: l2 /\ alerts (fst r) = l1 ++ l2)
  /\ panels (fst r) = panels st' /\ rules (fst r) = rules st'
  /\ selectedAlert (snd r) = None
  /\ (forall i, ~ In i (map a_id (alerts st')) ->
        alerts (fst (dismissAlert st' sel i)) = alerts st').
Proof.
  intros st' r.
  assert (Hnd : NoDup (map a_id (alerts st'))).
  { pose proof (processData_ascending H clock Hclock st data w) as Ha.
    cbv zeta in Ha. apply ascending_NoDup in Ha.
    apply NoDup_app_remove_l in Ha. exact Ha. }
  split; [|repeat split].
  - destruct (filter_removes_one a_id (alerts st') a Hnd Hin)
      as (l1 & l2 & E1 & E2).
    exists l1, l2. split; [exact E1|exact E2].
  - intros i Hi. simpl. apply filter_keeps_all. intros x Hx.
    apply negb_true_iff, Z.eqb_neq. intros E. apply Hi. rewrite <- E.
    apply in_map, Hx.
Qed.

Lemma dismiss_removes_one_witness :
  List.length (alerts (fst (dismissAlert
     (fst (processData Engine.host Demo.steadyClock (Demo.app [] blankForm)
             Demo.batch Demo.world0))
     {| selectedPanel := "All"; selectedSeverity := "All";
        selectedAlert := None |}
     1700000000004))) = 2%nat.
Proof.
  destruct (dismiss_removes_one Engine.host Demo.steadyClock
              (Demo.app [] blankForm) Demo.batch Demo.world0
              {| selectedPanel := "All"; selectedSeverity := "All";
                 selectedAlert := None |}
              {| a_id := 1700000000004; a_id_panel := Some "PV001";
                 alertMessage := "Panel PV001 has low power: 30.00W";
                 severityLevel := "warning"; a_when := 1704103500000 |})
    as [_ _].
  - intros n. unfold Demo.steadyClock. lia.
  - vm_compute. right. left. reflexivity.
  - vm_compute. reflexivity.
Defined.

(** *** The rule store *)

(** X11: deleting a rule id removes every rule with that id and keeps the
    others in their order; deleting the same id again, or an id that no rule
    carries, changes nothing; the readings, the alerts raised before and the
    draft are not touched. *)
Theorem deleteRule_spec (st : App) (ruleId : Z) :
  let st' := deleteRule st ruleId in
  rules st' = filter (fun r => negb (Z.eqb (r_id r) ruleId)) (rules st)
  /\ (forall r, In r (rules st') <-> In r (rules st) /\ r_id r <> ruleId)
  /\ deleteRule st' ruleId = st'
  /\ ((forall r, In r (rules st) -> r_id r <> ruleId) -> rules st' = rules st)
  /\ panels st' = panels st /\ alerts st' = alerts st
  /\ ruleForm st' = ruleForm st.
Proof.
  intros st'. split; [reflexivity|]. split; [|split; [|split]].
  - intros r. unfold st'. simpl. rewrite filter_In, negb_true_iff, Z.eqb_neq.
    tauto.
  - unfold st', deleteRule, setRules, setRulesForm. simpl. f_equal.
    apply filter_keeps_all. intros r Hr. apply filter_In in Hr.
    destruct Hr as [_ Hr]. exact Hr.
  - intros Hno. simpl. apply filter_keeps_all. intros r Hr.
    apply negb_true_iff, Z.eqb_neq, Hno, Hr.
  - repeat split.
Qed.

Section RuleStoreFacts.

Variable H : JS.Host.
Variable clock : nat -> Z.

Lemma editRule_draft_valid (st : App) (r : Rule) :
  JS.truthyNum (value r) = true -> JS.truthyStr (message r) = true ->
  invalidDraft H (ruleForm (editRule st r)) = false
  /\ JS.parseFloat H (f_value (ruleForm (editRule st r))) = value r.
Proof.
  intros Hv Hm. unfold invalidDraft, editRule. simpl.
  unfold JS.truthyNum in Hv. apply negb_true_iff, orb_false_iff in Hv.
  destruct Hv as [Hz Hn]. rewrite (parseFloatNum_nonzero _ Hz).
  unfold JS.truthyNum. rewrite Hz, Hn, Hm. split; reflexivity.
Qed.

Lemma truthyId_edit (st : App) (r : Rule) :
  r_id r <> 0 -> truthyId (editId (ruleForm (editRule st r))) = true.
Proof. intros Hid. simpl. apply negb_true_iff, Z.eqb_neq, Hid. Qed.

Lemma invalidDraft_false (st : App) :
  invalidDraft H (ruleForm st) = false ->
  JS.isNaN (JS.parseFloat H (f_value (ruleForm st))) = false
  /\ JS.truthyStr (f_message (ruleForm st)) = true.
Proof.
  unfold invalidDraft. rewrite !orb_false_iff, !negb_false_iff. tauto.
Qed.

End RuleStoreFacts.

(** X12: opening a rule for editing and saving the draft as it is leaves the
    rule list as it was and the form blank, without a message, provided the
    rule's threshold is a number other than 0, its message is not empty, its
    id is not 0 and no other rule carries its id. *)
Theorem edit_then_save_unchanged (H : JS.Host) (clock : nat -> Z) (st : App)
    (r : Rule) (w : World)
    (Hvalue : JS.truthyNum (value r) = true)
    (Hmessage : JS.truthyStr (message r) = true)
    (Hid : r_id r <> 0)
    (Hunique : forall r', In r' (rules st) -> r_id r' = r_id r -> r' = r) :
  saveRule H clock (editRule st r) w = (setRuleForm st blankForm, w).
Proof.
  destruct (editRule_draft_valid H st r Hvalue Hmessage) as [Hv Hp].
  pose proof (truthyId_edit st r Hid) as Ht.
  assert (Hmap : map (fun r0 => if Z.eqb (r_id r0) (r_id r) then r else r0)
                   (rules st) = rules st).
  { induction (rules st) as [|r' rs IH]; simpl; [reflexivity|].
    rewrite IH by (intros x Hx; apply Hunique; right; exact Hx). f_equal.
    destruct (Z.eqb_spec (r_id r') (r_id r)) as [E|E]; [|reflexivity].
    symmetry. apply Hunique; [left; reflexivity|exact E]. }
  unfold saveRule. rewrite Hv, bind_run, Ht, Hp.
  destruct r as [i m c v s msg]. cbn in *. rewrite Hmap. reflexivity.
Qed.

Lemma edit_then_save_unchanged_witness :
  rules (fst (saveRule Engine.host Demo.steadyClock
     (editRule (Demo.app [Demo.voltageAbove0; Demo.powerBelow100] blankForm)
        Demo.powerBelow100) Demo.world0)) =
  [Demo.voltageAbove0; Demo.powerBelow100].
Proof.
  rewrite (edit_then_save_unchanged Engine.host Demo.steadyClock
             (Demo.app [Demo.voltageAbove0; Demo.powerBelow100] blankForm)
             Demo.powerBelow100 Demo.world0).
  - reflexivity.
  - vm_compute. reflexivity.
  - reflexivity.
  - vm_compute. discriminate.
  - intros r' [<-|[<-|[]]] E; [vm_compute in E; discriminate|reflexivity].
Defined.

(** X13: saving a valid draft in edit mode keeps the number, the order and
    the ids of the rules: every rule with the edited id is replaced by the
    rule of the draft, which takes that id, and every other rule stays as it
    is. *)
Theorem update_keeps_ids (H : JS.Host) (clock : nat -> Z) (st : App) (w : World)
    (Hvalid : invalidDraft H (ruleForm st) = false)
    (Hset : truthyId (editId (ruleForm st)) = true) :
  let rs := rules (fst (saveRule H clock st w)) in
  map r_id rs = map r_id (rules st)
  /\ Forall2 (fun old new =>
                if sameId old (editId (ruleForm st)) then
                  metric new = f_metric (ruleForm st)
                  /\ condition new = f_condition (ruleForm st)
                  /\ value new = JS.parseFloat H (f_value (ruleForm st))
                  /\ severity new = f_severity (ruleForm st)
                  /\ message new = f_message (ruleForm st)
                else new = old)
       (rules st) rs.
Proof.
  intros rs. unfold rs. rewrite saveRule_update by assumption.
  destruct (editId (ruleForm st)) as [n|]; [|discriminate Hset].
  split.
  - rewrite map_map. apply map_ext. intros r. simpl.
    destruct (Z.eqb_spec (r_id r) n) as [E|E]; [simpl; congruence|reflexivity].
  - induction (rules st) as [|r l IH]; simpl; constructor; [|exact IH].
    destruct (Z.eqb (r_id r) n); simpl; [repeat split|reflexivity].
Qed.

Lemma update_keeps_ids_witness :
  map r_id (rules (fst (saveRule Engine.host Demo.steadyClock
     (handleRuleChange
        (editRule (Demo.app [Demo.voltageAbove0; Demo.powerBelow100] blankForm)
           Demo.powerBelow100) FieldValue "75")
     Demo.world0))) = [1699999999500; 1699999999000].
Proof.
  destruct (update_keeps_ids Engine.host Demo.steadyClock
              (handleRuleChange
                 (editRule (Demo.app [Demo.voltageAbove0; Demo.powerBelow100]
                              blankForm) Demo.powerBelow100) FieldValue "75")
              Demo.world0) as [E _].
  - vm_compute. reflexivity.
  - vm_compute. reflexivity.
  - rewrite E. reflexivity.
Defined.

(** X14: the rule store keeps its rules well formed: when every rule has a
    threshold that is a number and a message that is not empty, the same
    holds after saving any draft and after deleting any rule; for such rules
    the alert text is the rule's own message, never the generated one. *)
Theorem rules_stay_well_formed (H : JS.Host) (clock : nat -> Z) (st : App)
    (w : World) (Hgood : Forall wellFormed (rules st)) :
  Forall wellFormed (rules (fst (saveRule H clock st w)))
  /\ (forall i, Forall wellFormed (rules (deleteRule st i)))
  /\ (forall r, wellFormed r -> ruleMessage H r = message r).
Proof.
  split; [|split].
  - destruct (invalidDraft H (ruleForm st)) eqn:Ev.
    + rewrite saveRule_rejected by exact Ev. exact Hgood.
    + destruct (invalidDraft_false H st Ev) as [Hn Hm].
      destruct (truthyId (editId (ruleForm st))) eqn:Et.
      * rewrite saveRule_update by assumption.
        apply Forall_forall. intros r Hr. apply in_map_iff in Hr.
        destruct Hr as (r0 & <- & Hr0).
        destruct (sameId r0 (editId (ruleForm st))); [split; assumption|].
        rewrite Forall_forall in Hgood. apply Hgood, Hr0.
      * rewrite saveRule_create by assumption.
        apply Forall_app. split; [exact Hgood|].
        constructor; [split; assumption|constructor].
  - intros i. simpl. apply Forall_forall. intros r Hr.
    apply filter_In in Hr. rewrite Forall_forall in Hgood. apply Hgood. tauto.
  - intros r [_ Hm]. unfold ruleMessage. rewrite Hm. reflexivity.
Qed.

Lemma rules_stay_well_formed_witness :
  Forall wellFormed (rules (fst (saveRule Engine.host Demo.steadyClock
     (Demo.app [Demo.powerBelow100] Demo.plainDraft) Demo.world0))).
Proof.
  apply (rules_stay_well_formed Engine.host Demo.steadyClock
           (Demo.app [Demo.powerBelow100] Demo.plainDraft) Demo.world0).
  constructor; [split; reflexivity|constructor].
Defined.

(** X15: when a rule is deleted while its draft is open, saving the draft
    does not bring the rule back: whatever the draft holds, the rule list
    after the save is the list without the deleted rule (the id of the rule
    not being 0). *)
Theorem delete_while_editing (H : JS.Host) (clock : nat -> Z) (st : App)
    (r : Rule) (f : RuleForm) (w : World)
    (Hid : r_id r <> 0) (Hedit : editId f = Some (r_id r)) :
  rules (fst (saveRule H clock
                (deleteRule (setRuleForm (editRule st r) f) (r_id r)) w)) =
  filter (fun r' => negb (Z.eqb (r_id r') (r_id r))) (rules st).
Proof.
  set (st2 := deleteRule (setRuleForm (editRule st r) f) (r_id r)).
  assert (Hf : ruleForm st2 = f) by reflexivity.
  assert (Hr : rules st2 =
               filter (fun r' => negb (Z.eqb (r_id r') (r_id r))) (rules st))
    by reflexivity.
  destruct (invalidDraft H (ruleForm st2)) eqn:Ev.
  - rewrite saveRule_rejected by exact Ev. exact Hr.
  - rewrite saveRule_update; [|exact Ev|].
    + rewrite map_replace_none; [exact Hr|].
      intros r' Hr'. rewrite Hr in Hr'. apply filter_In in Hr'.
      rewrite Hf, Hedit. simpl. apply negb_true_iff. tauto.
    + rewrite Hf, Hedit. simpl. apply negb_true_iff, Z.eqb_neq, Hid.
Qed.

Lemma delete_while_editing_witness :
  rules (fst (saveRule Engine.host Demo.steadyClock
     (deleteRule
        (setRuleForm
           (editRule (Demo.app [Demo.voltageAbove0; Demo.powerBelow100] blankForm)
              Demo.powerBelow100)
           (ruleForm (editRule (Demo.app [] blankForm) Demo.powerBelow100)))
        (r_id Demo.powerBelow100)) Demo.world0)) = [Demo.voltageAbove0].
Proof.
  rewrite (delete_while_editing Engine.host Demo.steadyClock
             (Demo.app [Demo.voltageAbove0; Demo.powerBelow100] blankForm)
             Demo.powerBelow100
             (ruleForm (editRule (Demo.app [] blankForm) Demo.powerBelow100))
             Demo.world0).
  - reflexivity.
  - vm_compute. discriminate.
  - reflexivity.
Defined.

(** *** Threshold inputs *)

Lemma is_zero_seq (x : float) : PrimFloat.is_zero x = JS.seq x 0%float.
Proof. reflexivity. Qed.

Lemma orElse_number (x d : float) :
  JS.isNaN d = false -> JS.seq d 0%float = false ->
  JS.isNaN (JS.orElse x d) = false /\ JS.seq (JS.orElse x d) 0%float = false.
Proof.
  intros Hd1 Hd2. unfold JS.orElse, JS.truthyNum.
  destruct (PrimFloat.is_zero x) eqn:Ez; simpl; [split; assumption|].
  destruct (JS.isNaN x) eqn:En; simpl; [split; assumption|].
  split; [exact En|exact Ez].
Qed.

(** X16: whatever is typed into a threshold input, the threshold that is
    stored is a number other than 0: a text that reads as 0 or as no number
    gives the default (50 for power, 200 for voltage), any other text gives
    the number it reads as; nothing else in the state changes. *)
Theorem threshold_inputs (H : JS.Host) (st : App) (text : string) :
  let x := JS.parseFloat H (JS.VStr text) in
  let sp := changePowerThreshold H st text in
  let sv := changeVoltageThreshold H st text in
  JS.isNaN (powerThreshold sp) = false
  /\ JS.seq (powerThreshold sp) 0%float = false
  /\ JS.isNaN (voltageThreshold sv) = false
  /\ JS.seq (voltageThreshold sv) 0%float = false
  /\ (JS.isNaN x = true \/ JS.seq x 0%float = true ->
        powerThreshold sp = 50%float /\ voltageThreshold sv = 200%float)
  /\ (JS.isNaN x = false /\ JS.seq x 0%float = false ->
        powerThreshold sp = x /\ voltageThreshold sv = x)
  /\ voltageThreshold sp = voltageThreshold st
  /\ powerThreshold sv = powerThreshold st
  /\ rules sp = rules st /\ rules sv = rules st
  /\ panels sp = panels st /\ alerts sp = alerts st
  /\ panels sv = panels st /\ alerts sv = alerts st
  /\ ruleForm sp = ruleForm st /\ ruleForm sv = ruleForm st.
Proof.
  intros x sp sv. subst sp sv.
  unfold changePowerThreshold, changeVoltageThreshold.
  cbn [powerThreshold voltageThreshold rules panels alerts ruleForm].
  fold x. clearbody x.
  destruct (orElse_number x 50%float eq_refl eq_refl) as [P1 P2].
  destruct (orElse_number x 200%float eq_refl eq_refl) as [V1 V2].
  repeat split; try assumption.
  - unfold JS.orElse, JS.truthyNum. destruct H0 as [Hn|Hz].
    + rewrite Hn, orb_true_r. reflexivity.
    + rewrite is_zero_seq, Hz. reflexivity.
  - unfold JS.orElse, JS.truthyNum. destruct H0 as [Hn|Hz].
    + rewrite Hn, orb_true_r. reflexivity.
    + rewrite is_zero_seq, Hz. reflexivity.
  - destruct H0 as [Hn Hz]. unfold JS.orElse, JS.truthyNum.
    rewrite is_zero_seq, Hn, Hz. reflexivity.
  - destruct H0 as [Hn Hz]. unfold JS.orElse, JS.truthyNum.
    rewrite is_zero_seq, Hn, Hz. reflexivity.
Qed.

(** *** The baseline and the dashboard average *)

Lemma zero_power_not_valid (x : float) :
  JS.seq x 0%float = true -> validPower x = false.
Proof.
  intros Hz. destruct (is_zero_SF x Hz) as [s Hs].
  unfold validPower, JS.gt. rewrite FloatAxioms.ltb_spec, Hs.
  change (Prim2SF 0) with (S754_zero false). apply andb_false_r.
Qed.

Lemma readingOf_offline (H : JS.Host) (thr : float) (row : Row) (p : Panel) :
  readingOf H thr row p ->
  panelStatus p = offline -> JS.seq (powerOut p) 0%float = true.
Proof.
  intros (_ & Hpow & _ & Hst & _). rewrite Hpow, Hst. unfold classify.
  destruct (JS.isNaN (JS.parseFloat H (JS.ofField (row_power row)))); simpl;
    [reflexivity|].
  destruct (JS.seq (JS.parseFloat H (JS.ofField (row_power row))) 0);
    [reflexivity|].
  destruct (JS.lt _ thr); discriminate.
Qed.

Lemma powerOutputs_drop (c : Panel -> bool) (ps : list Panel) :
  (forall p, In p ps -> c p = false -> validPower (powerOut p) = false) ->
  powerOutputs (filter c ps) = powerOutputs ps.
Proof.
  unfold powerOutputs. intros Hc. induction ps as [|p ps IH]; [reflexivity|].
  assert (IH' : filter validPower (map powerOut (filter c ps)) =
                filter validPower (map powerOut ps)).
  { apply IH. intros q Hq. apply Hc. right. exact Hq. }
  simpl. destruct (c p) eqn:Ec; simpl.
  - rewrite IH'. reflexivity.
  - rewrite (Hc p (or_introl eq_refl) Ec). exact IH'.
Qed.

(** X17: the offline readings of a processed batch do not enter the baseline
    of the anomaly test: the mean and the standard deviation are those of the
    batch without its offline readings. *)
Theorem offline_readings_outside_baseline (H : JS.Host) (clock : nat -> Z)
    (st : App) (data : list Row) (w : World) :
  let ps := panels (fst (processData H clock st data w)) in
  let live := filter (fun p => negb (hasStatus offline p)) ps in
  Forall (fun p => panelStatus p = offline -> validPower (powerOut p) = false) ps
  /\ meanPower live = meanPower ps
  /\ stdDevPower live = stdDevPower ps.
Proof.
  intros ps live.
  assert (Hoff : forall p, In p ps -> panelStatus p = offline ->
                           validPower (powerOut p) = false).
  { intros p Hp Hs.
    destruct (processData_reading_row H clock st data w p Hp)
      as (row & _ & _ & Hr).
    apply zero_power_not_valid. eapply readingOf_offline; eassumption. }
  assert (E : powerOutputs live = powerOutputs ps).
  { apply powerOutputs_drop. intros p Hp Hc. apply Hoff; [exact Hp|].
    apply negb_false_iff in Hc. unfold hasStatus in Hc.
    destruct (panelStatus p); [discriminate|discriminate|reflexivity]. }
  split; [apply Forall_forall; exact Hoff|].
  unfold meanPower, stdDevPower. rewrite E. split; reflexivity.
Qed.

Lemma fold_left_powers (ps : list Panel) (acc : float) :
  fold_left PrimFloat.add (map powerOut ps) acc =
  fold_left (fun sum p => PrimFloat.add sum (powerOut p)) ps acc.
Proof.
  revert acc. induction ps as [|p ps IH]; intros acc; simpl;
    [reflexivity|apply IH].
Qed.

(** X18: when the power of every stored reading is a number above 0, the
    average power on the dashboard is the mean of the anomaly baseline; with
    no reading at all the average is 0. *)
Theorem average_is_baseline_mean (st : App)
    (Hvalid : Forall (fun p => validPower (powerOut p) = true) (panels st)) :
  avgPower st = meanPower (panels st)
  /\ (panels st = [] -> avgPower st = 0%float).
Proof.
  unfold avgPower, meanPower, powerOutputs.
  rewrite filter_keeps_all.
  - split.
    + destruct (panels st) as [|p ps] eqn:E; [reflexivity|].
      unfold mean, sum. rewrite length_map, fold_left_powers. reflexivity.
    + intros ->. reflexivity.
  - intros x Hx. apply in_map_iff in Hx. destruct Hx as (p & <- & Hp).
    rewrite Forall_forall in Hvalid. apply Hvalid, Hp.
Qed.

Lemma average_is_baseline_mean_witness :
  avgPower (setPanelsAlerts (Demo.app [] blankForm)
              [Demo.reading 480 221; Demo.reading 520 219] []) = 500%float.
Proof.
  destruct (average_is_baseline_mean
              (setPanelsAlerts (Demo.app [] blankForm)
                 [Demo.reading 480 221; Demo.reading 520 219] [])) as [E _].
  - repeat constructor.
  - rewrite E. vm_compute. reflexivity.
Defined.

(** *** The panel selector and the two filters *)

Lemma fieldEq_eq (a b : option string) : JS.fieldEq a b = true <-> a = b.
Proof.
  destruct a as [x|], b as [y|]; simpl; try (split; congruence).
  rewrite String.eqb_eq. split; congruence.
Qed.

Lemma seen_iff (x : option string) (seen : list (option string)) :
  existsb (JS.fieldEq x) seen = true <-> In x seen.
Proof.
  rewrite existsb_exists. split.
  - intros (y & Hy & E). apply fieldEq_eq in E. subst. exact Hy.
  - intros Hx. exists x. split; [exact Hx|apply fieldEq_eq; reflexivity].
Qed.

Lemma setOf_In (l seen : list (option string)) (x : option string) :
  In x (setOf seen l) <-> In x l /\ ~ In x seen.
Proof.
  revert seen. induction l as [|y l IH]; intros seen; simpl; [tauto|].
  destruct (existsb (JS.fieldEq y) seen) eqn:E.
  - apply seen_iff in E. rewrite IH. split.
    + tauto.
    + intros [[->|Hx] Hn]; [contradiction|tauto].
  - assert (Hy : ~ In y seen) by (rewrite <- seen_iff, E; discriminate).
    simpl. rewrite IH. simpl. split.
    + intros [->|[Hx Hn]]; tauto.
    + intros [[->|Hx] Hn]; [tauto|].
      destruct (JS.fieldEq y x) eqn:Eyx.
      * apply fieldEq_eq in Eyx. tauto.
      * right. split; [exact Hx|]. intros [->|Hs]; [|tauto].
        assert (JS.fieldEq x x = true) by (apply fieldEq_eq; reflexivity).
        congruence.
Qed.

Lemma setOf_NoDup (l seen : list (option string)) : NoDup (setOf seen l).
Proof.
  revert seen. induction l as [|y l IH]; intros seen; simpl; [constructor|].
  destruct (existsb (JS.fieldEq y) seen); [apply IH|].
  constructor; [|apply IH]. rewrite setOf_In. simpl. tauto.
Qed.

(** X19: the panel selector offers "All" first and then every panel id of
    the stored readings that is present and not empty, each once; choosing
    "All" shows every reading, choosing another offered id shows exactly the
    readings of that panel, which are at least one. *)
Theorem panel_choices (st : App) :
  exists ids,
    panelIds st = Some "All" :: ids
    /\ NoDup ids
    /\ (forall f, In f ids <->
                  nonEmpty f /\ exists p, In p (panels st) /\ id_panel p = f)
    /\ (forall sel, selectedPanel sel = "All" ->
                    filteredPanels st sel = panels st)
    /\ (forall sel, In (Some (selectedPanel sel)) ids ->
                    selectedPanel sel <> "All" ->
                    filteredPanels st sel <> []
                    /\ forall p, In p (filteredPanels st sel) <->
                                 In p (panels st)
                                 /\ id_panel p = Some (selectedPanel sel)).
Proof.
  eexists. split; [reflexivity|]. split; [apply setOf_NoDup|].
  assert (Hids : forall f,
    In f (setOf [] (filter (fun f => JS.truthy (JS.ofField f))
                      (map id_panel (panels st)))) <->
    nonEmpty f /\ exists p, In p (panels st) /\ id_panel p = f).
  { intros f. rewrite setOf_In, filter_In, in_map_iff, truthy_field.
    simpl. split.
    - intros [[(p & E & Hp) Hn] _]. split; [exact Hn|]. exists p. tauto.
    - intros [Hn (p & Hp & E)]. repeat split; [|exact Hn|tauto].
      exists p. tauto. }
  split; [exact Hids|]. split.
  - intros sel E. unfold filteredPanels. rewrite E. reflexivity.
  - intros sel Hin Hne. unfold filteredPanels.
    apply String.eqb_neq in Hne. rewrite Hne.
    assert (Hall : forall p,
      In p (filter (fun p => JS.fieldEq (id_panel p) (Some (selectedPanel sel)))
              (panels st)) <->
      In p (panels st) /\ id_panel p = Some (selectedPanel sel)).
    { intros p. rewrite filter_In, fieldEq_eq. tauto. }
    split; [|exact Hall].
    apply Hids in Hin. destruct Hin as [_ (p & Hp & E)].
    intros Hnil. assert (Hp' : In p []) by (rewrite <- Hnil; apply Hall; tauto).
    contradiction.
Qed.

Section Shown.

Variable H : JS.Host.
Variable clock : nat -> Z.

(** Every alert of a processed batch has a reading, and every alert a
    reading should raise is there. *)
Lemma alert_has_reading (st : App) (data : list Row) (w : World) (a : Alert) :
  let st' := fst (processData H clock st data w) in
  In a (alerts st') ->
  exists p, In p (panels st') /\ a_id_panel a = id_panel p
            /\ a_when a = when p.
Proof.
  intros st' Ha.
  assert (Hb : In (semantic a) (map semantic (alerts st'))) by (apply in_map, Ha).
  unfold st' in Hb. rewrite processData_bodies in Hb.
  apply in_flat_map in Hb. destruct Hb as (p & Hp & Hb).
  apply expectedAlerts_carry in Hb. simpl in Hb. exists p. tauto.
Qed.

Lemma reading_has_alert (st : App) (data : list Row) (w : World) (p : Panel)
    (b : AlertBody) :
  let st' := fst (processData H clock st data w) in
  In p (panels st') ->
  In b (expectedAlerts H (voltageThreshold st) (meanPower (panels st'))
          (stdDevPower (panels st')) (rules st) p) ->
  exists a, In a (alerts st') /\ a_id_panel a = id_panel p
            /\ a_when a = when p.
Proof.
  intros st' Hp Hb.
  assert (Hin : In b (map semantic (alerts st'))).
  { unfold st'. rewrite processData_bodies. apply in_flat_map.
    exists p. split; [exact Hp|exact Hb]. }
  apply in_map_iff in Hin. destruct Hin as (a & E & Ha).
  apply expectedAlerts_carry in Hb. rewrite <- E in Hb. simpl in Hb.
  exists a. tauto.
Qed.

End Shown.

(** X20: for a processed batch and any selection, the alerts listed are the
    alerts of the chosen severity that belong to the readings shown: an alert
    is listed iff it is in the store, has the chosen severity (or "All" is
    chosen) and carries the panel id and the time of a reading that the
    panel filter shows. *)
Theorem listed_alerts_match_shown_readings (H : JS.Host) (clock : nat -> Z)
    (st : App) (data : list Row) (w : World) (sel : Selection) (a : Alert) :
  let st' := fst (processData H clock st data w) in
  In a (filteredAlerts st' sel) <->
  In a (alerts st')
  /\ (selectedSeverity sel = "All" \/ severityLevel a = selectedSeverity sel)
  /\ exists p, In p (filteredPanels st' sel)
               /\ a_id_panel a = id_panel p /\ a_when a = when p.
Proof.
  intros st'.
  assert (Hshown : In a (alerts st') ->
    (String.eqb (selectedPanel sel) "All"
     || JS.fieldEq (a_id_panel a) (Some (selectedPanel sel)) = true <->
     exists p, In p (filteredPanels st' sel)
               /\ a_id_panel a = id_panel p /\ a_when a = when p)).
  { intros Ha. unfold filteredPanels.
    destruct (alert_has_reading H clock st data w a Ha) as (p & Hp & Hid & Hw).
    fold st' in Hp.
    destruct (String.eqb (selectedPanel sel) "All"); simpl.
    - split; [intros _; exists p; tauto|reflexivity].
    - rewrite fieldEq_eq. split.
      + intros E. exists p. rewrite filter_In, fieldEq_eq. split; [|tauto].
        split; [exact Hp|congruence].
      + intros (q & Hq & Hqid & _). apply filter_In in Hq.
        destruct Hq as [_ Hq]. apply fieldEq_eq in Hq. congruence. }
  unfold filteredAlerts.
  destruct (String.eqb (selectedSeverity sel) "All") eqn:Es.
  - rewrite filter_In. apply String.eqb_eq in Es. split.
    + intros [Ha Hc]. split; [exact Ha|]. split; [left; exact Es|].
      apply Hshown; assumption.
    + intros (Ha & _ & Hp). split; [exact Ha|]. apply Hshown; assumption.
  - rewrite filter_In, andb_true_iff, String.eqb_eq.
    apply String.eqb_neq in Es. split.
    + intros [Ha [Hsev Hc]]. split; [exact Ha|]. split; [right; exact Hsev|].
      apply Hshown; assumption.
    + intros (Ha & [Hall|Hsev] & Hp); [contradiction|].
      split; [exact Ha|]. split; [exact Hsev|]. apply Hshown; assumption.
Qed.

Lemma Forall2_map_r {A B} (R : A -> B -> Prop) (f : A -> B) (l : list A) :
  (forall x, In x l -> R x (f x)) -> Forall2 R l (map f l).
Proof.
  induction l as [|x l IH]; intros Hall; simpl; constructor.
  - apply Hall. left. reflexivity.
  - apply IH. intros y Hy. apply Hall. right. exact Hy.
Qed.

(** X21: in the chart of a processed batch there is one marker slot for each
    reading shown; a slot is empty or holds the power of its reading, and it
    holds the power whenever the reading is offline, has low power or has a
    voltage below the voltage threshold. *)
Theorem troubled_readings_are_marked (H : JS.Host) (clock : nat -> Z)
    (timeOfDay : Z -> string) (st : App) (data : list Row) (w : World)
    (sel : Selection) :
  let st' := fst (processData H clock st data w) in
  Forall2 (fun p m =>
             (m = None \/ m = Some (powerOut p))
             /\ (panelStatus p <> normal
                 \/ JS.lt (voltage p) (voltageThreshold st) = true ->
                 m = Some (powerOut p)))
    (filteredPanels st' sel) (alertMarkers timeOfDay st' sel).
Proof.
  intros st'. unfold alertMarkers. apply Forall2_map_r. intros p Hp.
  assert (Hin : In p (panels st')).
  { revert Hp. unfold filteredPanels.
    destruct (String.eqb (selectedPanel sel) "All"); [tauto|].
    rewrite filter_In. tauto. }
  split.
  - destruct (existsb _ (alerts st')); [right|left]; reflexivity.
  - intros Htrouble.
    assert (Hb : exists b,
      In b (expectedAlerts H (voltageThreshold st) (meanPower (panels st'))
              (stdDevPower (panels st')) (rules st) p)).
    { unfold expectedAlerts, statusPart, voltagePart.
      destruct Htrouble as [Hs|Hv].
      - destruct (panelStatus p); [contradiction| |];
          eexists; apply in_or_app; left; left; reflexivity.
      - rewrite Hv. eexists. apply in_or_app. right.
        apply in_or_app. left. left. reflexivity. }
    destruct Hb as [b Hb].
    destruct (reading_has_alert H clock st data w p b Hin Hb)
      as (a & Ha & Hid & Hw).
    assert (E : existsb (fun a => JS.fieldEq (a_id_panel a) (id_panel p)
                                  && String.eqb (timeOfDay (a_when a))
                                       (timeOfDay (when p)))
                  (alerts st') = true).
    { apply existsb_exists. exists a. split; [exact Ha|].
      rewrite Hw, String.eqb_refl, andb_true_r. apply fieldEq_eq, Hid. }
    rewrite E. reflexivity.
Qed.

(** *** Creating a rule *)

(** X22: the "Add Rule" dialog stores what was typed: after the five inputs
    are filled in, in the order of the dialog, with a threshold that is not
    empty and reads as a number and a message that is not empty, saving
    appends one rule with these fields, the threshold parsed and the clock's
    reading as its id, resets the form and shows no dialog. *)
Theorem create_rule_flow (H : JS.Host) (clock : nat -> Z) (st : App) (w : World)
    (m c v s msg : string)
    (Hvalue : v <> "")
    (Hnumber : JS.isNaN (JS.parseFloat H (JS.VStr v)) = false)
    (Hmessage : msg <> "") :
  let filled :=
    handleRuleChange
      (handleRuleChange
         (handleRuleChange
            (handleRuleChange
               (handleRuleChange (startCreate st) FieldMetric m)
               FieldCondition c)
            FieldValue v)
         FieldSeverity s)
      FieldMessage msg in
  let saved := saveRule H clock filled w in
  rules (fst saved) =
    rules st ++ [ {| r_id := clock (ticks w); metric := m; condition := c;
                     value := JS.parseFloat H (JS.VStr v); severity := s;
                     message := msg |} ]
  /\ ruleForm (fst saved) = blankForm
  /\ dialogs (snd saved) = dialogs w
  /\ panels (fst saved) = panels st /\ alerts (fst saved) = alerts st.
Proof.
  intros filled saved.
  assert (Hv : invalidDraft H (ruleForm filled) = false).
  { unfold invalidDraft. subst filled. cbn -[JS.parseFloat].
    rewrite Hnumber. destruct v; [congruence|]. destruct msg; [congruence|].
    reflexivity. }
  assert (Ht : truthyId (editId (ruleForm filled)) = false) by reflexivity.
  destruct (saveRule_accepted H clock filled w Hv) as [Hf Hd].
  split; [|split; [exact Hf|split; [exact Hd|]]].
  - unfold saved. rewrite (saveRule_create H clock filled w Hv Ht). reflexivity.
  - unfold saved, saveRule. rewrite Hv, bind_run, Ht. split; reflexivity.
Qed.

Lemma create_rule_flow_witness :
  map message (rules (fst (saveRule Engine.host Demo.steadyClock
    (handleRuleChange
       (handleRuleChange
          (handleRuleChange
             (handleRuleChange
                (handleRuleChange
                   (startCreate (Demo.app [Demo.powerBelow100] blankForm))
                   FieldMetric "voltage")
                FieldCondition ">")
             FieldValue "250.5")
          FieldSeverity "critical")
       FieldMessage "Overvoltage")
    Demo.world0))) = [message Demo.powerBelow100; "Overvoltage"].
Proof.
  destruct (create_rule_flow Engine.host Demo.steadyClock
              (Demo.app [Demo.powerBelow100] blankForm) Demo.world0
              "voltage" ">" "250.5" "critical" "Overvoltage") as [E _].
  - discriminate.
  - vm_compute. reflexivity.
  - discriminate.
  - rewrite E. reflexivity.
Defined.

(** *** The health bar *)

Section HealthBar.

Local Close Scope string_scope.

Lemma of_mantissa_number s m e : 0 <= m -> numberSF (of_mantissa s m e).
Proof.
  destruct m; try lia; intros _; simpl; [exact I|].
  destruct (_ <=? _); exact I.
Qed.

Lemma SFcompare_refl x : numberSF x -> SFcompare x x = Some Eq.
Proof.
  destruct x as [s|s| |s m e]; simpl; try tauto; intros _.
  - destruct s; reflexivity.
  - rewrite Z.compare_refl.
    change (Pos.compare_cont Eq m m) with (Pos.compare m m).
    rewrite Pos.compare_refl. destruct s; reflexivity.
Qed.

Lemma isNaN_number (x : float) :
  JS.isNaN x = false <-> numberSF (Prim2SF x).
Proof.
  unfold JS.isNaN, PrimFloat.is_nan.
  rewrite negb_false_iff, FloatAxioms.eqb_spec. unfold SFeqb. split.
  - destruct (Prim2SF x); simpl; [tauto|tauto|discriminate|tauto].
  - intros Hn. rewrite (SFcompare_refl _ Hn). reflexivity.
Qed.

Lemma div_number x mn en :
  numberSF x -> numberSF (SF64div x (S754_finite false mn en)).
Proof.
  destruct x as [sx|sx| |sx ms es]; simpl; try tauto; intros _.
  unfold SF64div, SFdiv, SFdiv_core_binary. cbn [Zdigits2].
  set (e' := Z.min _ _). set (s := es - en - e').
  set (m' := match s with Zpos _ => Z.shiftl (Zpos ms) s | Z0 => Zpos ms
                        | Zneg _ => 0 end).
  assert (Hs : 0 <= s) by (unfold s, e'; lia).
  assert (Hm' : m' = Zpos ms * 2 ^ s).
  { unfold m'. clearbody s. destruct s as [|p|p]; [rewrite Z.pow_0_r; lia| |lia].
    rewrite Z.shiftl_mul_pow2 by lia. reflexivity. }
  pose proof (Z_div_mod m' (Zpos mn) ltac:(lia)) as Hdm.
  destruct (Z.div_eucl m' (Zpos mn)) as [q r] eqn:Eqr.
  destruct Hdm as [Hdm Hr].
  assert (Hp2 : 0 < 2 ^ s) by (apply Z.pow_pos_nonneg; lia).
  assert (Hq : 0 <= q) by nia.
  destruct (bra_shape (xorb sx false) q e' (new_location (Zpos mn) r) Hq)
    as (m2 & e2 & Heq & Hm2 & _).
  rewrite Heq. apply of_mantissa_number, Hm2.
Qed.

Lemma mul_number x my ey :
  numberSF x -> numberSF (SF64mul x (S754_finite false my ey)).
Proof.
  destruct x as [sx|sx| |sx mx ex]; simpl; try tauto; intros _.
  unfold SF64mul, SFmul.
  destruct (bra_shape (xorb sx false) (Zpos (mx * my)) (ex + ey) loc_Exact
              ltac:(lia)) as (m2 & e2 & Heq & Hm2 & _).
  rewrite Heq. apply of_mantissa_number, Hm2.
Qed.

(** [Math.min] against a positive finite bound. *)
Lemma Math_min_bound (x c : float) mc ec :
  Prim2SF c = S754_finite false mc ec ->
  JS.isNaN x = false ->
  JS.isNaN (JS.Math_min x c) = false
  /\ PrimFloat.leb (JS.Math_min x c) c = true.
Proof.
  intros Hc Hx.
  assert (Hcn : JS.isNaN c = false) by (apply isNaN_number; rewrite Hc; exact I).
  assert (Hcc : PrimFloat.leb c c = true).
  { rewrite FloatAxioms.leb_spec. unfold SFleb.
    rewrite SFcompare_refl; [reflexivity|rewrite Hc; exact I]. }
  unfold JS.Math_min. rewrite Hx, Hcn. cbn [orb].
  destruct (PrimFloat.ltb x c) eqn:E1.
  - split; [exact Hx|].
    rewrite FloatAxioms.ltb_spec in E1. rewrite FloatAxioms.leb_spec.
    unfold SFltb in E1. unfold SFleb.
    destruct (SFcompare (Prim2SF x) (Prim2SF c)) as [[]|]; congruence.
  - destruct (PrimFloat.ltb c x) eqn:E2; [split; assumption|].
    assert (Hle : PrimFloat.leb x c = true).
    { apply isNaN_number in Hx.
      rewrite FloatAxioms.ltb_spec in E1, E2. rewrite FloatAxioms.leb_spec.
      rewrite Hc in *. unfold SFltb in E1, E2. unfold SFleb.
      destruct (Prim2SF x) as [s|s| |s m e]; simpl in *;
        try contradiction; try (destruct s; congruence).
      destruct s; [discriminate|].
      rewrite (Z.compare_antisym e ec) in E2.
      destruct (Z.compare e ec); simpl in *; try congruence.
      assert (Ha : Pos.compare_cont Eq mc m = CompOpp (Pos.compare_cont Eq m mc))
        by (symmetry; apply (Pos.compare_cont_antisym m mc Eq)).
      rewrite Ha in E2.
      destruct (Pos.compare_cont Eq m mc); simpl in *; congruence. }
    destruct (PrimFloat.is_zero x); [|split; assumption].
    destruct (PrimFloat.get_sign x); split; assumption.
Qed.

End HealthBar.

(** X23: the health bar of a reading of a processed batch always has a
    width: it is a number (never NaN) and at most 100 percent. *)
Theorem health_bar_bounded (H : JS.Host) (clock : nat -> Z) (st : App)
    (data : list Row) (w : World) :
  Forall (fun p => JS.isNaN (healthWidth p) = false
                   /\ PrimFloat.leb (healthWidth p) 100%float = true)
    (panels (fst (processData H clock st data w))).
Proof.
  apply Forall_forall. intros p Hp.
  destruct (processData_reading_row H clock st data w p Hp)
    as (row & _ & _ & (_ & Hpow & _)).
  assert (Hn : JS.isNaN (powerOut p) = false).
  { rewrite Hpow.
    destruct (JS.isNaN (JS.parseFloat H (JS.ofField (row_power row)))) eqn:E;
      [reflexivity|exact E]. }
  unfold healthWidth.
  apply (Math_min_bound _ 100%float 7036874417766400%positive (-46)%Z);
    [reflexivity|].
  apply isNaN_number. rewrite FloatAxioms.mul_spec, FloatAxioms.div_spec.
  change (Prim2SF 100) with (S754_finite false 7036874417766400 (-46)).
  change (Prim2SF 600) with (S754_finite false 5277655813324800 (-43)).
  apply mul_number, div_number, isNaN_number, Hn.
Qed.
